(** * failhook: run a command, and on failure dispatch notification handlers

    A shallow embedding of the Go program (package [main] and package
    [handlers]) together with the parts of the Go standard library its
    behaviour depends on, followed by the verification of its
    specification. *)

From Stdlib Require Import ZArith Ascii String List Lia Bool.
From stdpp Require Import base option list gmap strings pretty.

Local Open Scope Z_scope.

(** ** Go strings as byte strings

    A Go [string] is an immutable sequence of bytes; it is embedded as
    [string], whose characters are the bytes. *)

Definition byte_val (c : ascii) : Z := Z.of_N (N_of_ascii c).
Definition byte_chr (b : Z) : ascii := ascii_of_N (Z.to_N b).

(** The characters that cannot be written inside a literal. *)
Definition dq : string := String "034" "".
Definition nl : string := String "010" "".

(** [len(s)], [s[:n]] and [s[n:]]. *)
Definition len (s : string) : Z := Z.of_nat (String.length s).

Fixpoint take_n (n : nat) (s : string) : string :=
  match n, s with
  | S n', String c s' => String c (take_n n' s')
  | _, _ => ""
  end.

Fixpoint drop_n (n : nat) (s : string) : string :=
  match n, s with
  | S n', String _ s' => drop_n n' s'
  | _, _ => s
  end.

Definition len_list {A} (l : list A) : Z := Z.of_nat (length l).

Definition slice_to (s : string) (j : Z) : string := take_n (Z.to_nat j) s.
Definition slice_from (s : string) (i : Z) : string := drop_n (Z.to_nat i) s.

Fixpoint rev_string_onto (s acc : string) : string :=
  match s with
  | "" => acc
  | String c s' => rev_string_onto s' (String c acc)
  end.
Definition rev_string (s : string) : string := rev_string_onto s "".

(** ** Package unicode/utf8 *)
Module go_utf8.

Definition RuneError : Z := 65533.
Definition RuneSelf : Z := 128.
Definition UTFMax : Z := 4.

(** Information about the first byte of an encoding: [as], [xx] and the
    size/accept-range codes of the table [first]. *)
Definition first (b : Z) : Z :=
  if b <? 128 then 240              (* as: ASCII *)
  else if b <? 194 then 241         (* xx: invalid *)
  else if b <? 224 then 2           (* s1 *)
  else if b =? 224 then 19          (* s2 *)
  else if b <? 237 then 3           (* s3 *)
  else if b =? 237 then 35          (* s4 *)
  else if b <? 240 then 3           (* s3 *)
  else if b =? 240 then 52          (* s5 *)
  else if b <? 244 then 4           (* s6 *)
  else if b =? 244 then 68          (* s7 *)
  else 241.                         (* xx *)

(** [acceptRanges]: the bounds on the second byte. *)
Definition acceptRanges (i : Z) : Z * Z :=
  if i =? 0 then (128, 191)
  else if i =? 1 then (160, 191)
  else if i =? 2 then (128, 159)
  else if i =? 3 then (144, 191)
  else (128, 143).

Definition locb : Z := 128.
Definition hicb : Z := 191.

(** [DecodeRuneInString]: the first rune of [s] and its width in bytes;
    [(RuneError, 0)] on the empty string and [(RuneError, 1)] on an
    invalid encoding. *)
Definition DecodeRuneInString (s : string) : Z * Z :=
  match s with
  | "" => (RuneError, 0)
  | String c0 t0 =>
    let s0 := byte_val c0 in
    let x := first s0 in
    if 240 <=? x then
      (if x =? 241 then RuneError else s0, 1)
    else
      let sz := Z.land x 7 in
      let accept := acceptRanges (Z.shiftr x 4) in
      if len s <? sz then (RuneError, 1) else
      match t0 with
      | "" => (RuneError, 1)
      | String c1 t1 =>
        let s1 := byte_val c1 in
        if (s1 <? fst accept) || (snd accept <? s1) then (RuneError, 1)
        else if sz <=? 2 then
          (Z.lor (Z.shiftl (Z.land s0 31) 6) (Z.land s1 63), 2)
        else
        match t1 with
        | "" => (RuneError, 1)
        | String c2 t2 =>
          let s2 := byte_val c2 in
          if (s2 <? locb) || (hicb <? s2) then (RuneError, 1)
          else if sz <=? 3 then
            (Z.lor (Z.lor (Z.shiftl (Z.land s0 15) 12)
                          (Z.shiftl (Z.land s1 63) 6)) (Z.land s2 63), 3)
          else
          match t2 with
          | "" => (RuneError, 1)
          | String c3 _ =>
            let s3 := byte_val c3 in
            if (s3 <? locb) || (hicb <? s3) then (RuneError, 1)
            else
              (Z.lor (Z.lor (Z.lor (Z.shiftl (Z.land s0 7) 18)
                                   (Z.shiftl (Z.land s1 63) 12))
                            (Z.shiftl (Z.land s2 63) 6)) (Z.land s3 63), 4)
          end
        end
      end
  end.

(** [RuneStart]: the byte is not a continuation byte. *)
Definition RuneStart (b : Z) : bool := negb (Z.land b 192 =? 128).

(** The backwards scan of [DecodeLastRuneInString]: [rs] holds the bytes
    before the last one, nearest first, and [k] counts the bytes already
    behind the candidate start. At most [UTFMax] bytes are inspected. *)
Fixpoint last_start (fuel : nat) (rs : string) (k : Z) : Z :=
  match fuel, rs with
  | S fuel', String c rs' =>
      if RuneStart (byte_val c) then k + 1 else last_start fuel' rs' (k + 1)
  | O, String _ _ => k + 1
  | _, "" => k
  end.

(** [DecodeLastRuneInString]: the last rune of [s] and its width. *)
Definition DecodeLastRuneInString (s : string) : Z * Z :=
  match rev_string s with
  | "" => (RuneError, 0)
  | String c rs =>
    if byte_val c <? RuneSelf then (byte_val c, 1)
    else
      let back := last_start 3 rs 1 in
      let '(r, size) := DecodeRuneInString (slice_from s (len s - back)) in
      if size =? back then (r, size) else (RuneError, 1)
  end.

(** [RuneCountInString]: the number of runes, invalid bytes counting as
    one rune each. Every rune of a non-empty string is at least one byte
    wide, so [String.length s] iterations suffice. *)
Fixpoint rune_count (fuel : nat) (s : string) : Z :=
  match fuel with
  | O => 0
  | S fuel' =>
    match s with
    | "" => 0
    | _ => 1 + rune_count fuel' (slice_from s (snd (DecodeRuneInString s)))
    end
  end.
Definition RuneCountInString (s : string) : Z := rune_count (String.length s) s.

End go_utf8.

(** ** Package unicode *)
Module go_unicode.

(** [IsSpace]: Unicode's White Space property. *)
Definition IsSpace (r : Z) : bool :=
  if r <=? 255 then
    (r =? 9) || (r =? 10) || (r =? 11) || (r =? 12) || (r =? 13)
    || (r =? 32) || (r =? 133) || (r =? 160)
  else
    (r =? 5760) || ((8192 <=? r) && (r <=? 8202)) || (r =? 8232)
    || (r =? 8233) || (r =? 8239) || (r =? 8287) || (r =? 12288).

End go_unicode.

(** ** Package strings *)
Module go_strings.

(** [s[i]] for an index in range. *)
Definition byte_at (s : string) (i : Z) : Z :=
  match slice_from s i with
  | String c _ => byte_val c
  | "" => 0
  end.

(** [Index]: the index of the first instance of [substr] in [s], or -1. *)
Fixpoint Index (s substr : string) : Z :=
  if String.prefix substr s then 0
  else match s with
       | "" => -1
       | String _ s' =>
           let i := Index s' substr in
           if i =? -1 then -1 else i + 1
       end.

Definition Contains (s substr : string) : bool := 0 <=? Index s substr.

(** The counting loop of [Count] for a non-empty [substr]: every round
    consumes at least one byte of [s]. *)
Fixpoint count_loop (fuel : nat) (s substr : string) (n : Z) : Z :=
  match fuel with
  | O => n
  | S fuel' =>
      let i := Index s substr in
      if i =? -1 then n
      else count_loop fuel' (slice_from s (i + len substr)) substr (n + 1)
  end.

(** [Count]: the number of non-overlapping instances of [substr] in [s];
    for the empty [substr], one more than the number of runes. *)
Definition Count (s substr : string) : Z :=
  if len substr =? 0 then go_utf8.RuneCountInString s + 1
  else count_loop (S (String.length s)) s substr 0.

(** The replacement loop of [Replace]: [rest] is [s[start:]], the result
    is what the builder receives from round [i] on. *)
Fixpoint replace_loop (rounds : nat) (i : Z) (rest old new : string) : string :=
  match rounds with
  | O => rest
  | S rounds' =>
      let j :=
        if len old =? 0 then
          (if 0 <? i then snd (go_utf8.DecodeRuneInString rest) else 0)
        else Index rest old in
      slice_to rest j +:+ new +:+
      replace_loop rounds' (i + 1) (slice_from rest (j + len old)) old new
  end.

(** [Replace]: a copy of [s] with the first [n] non-overlapping instances
    of [old] replaced by [new]; no limit when [n < 0]. *)
Definition Replace (s old new : string) (n : Z) : string :=
  if String.eqb old new || (n =? 0) then s
  else
    let m := Count s old in
    if m =? 0 then s
    else
      let n := if (n <? 0) || (m <? n) then m else n in
      replace_loop (Z.to_nat n) 0 s old new.

(** [Join]. *)
Fixpoint Join (elems : list string) (sep : string) : string :=
  match elems with
  | [] => ""
  | [e] => e
  | e :: rest => e +:+ sep +:+ Join rest sep
  end.

Fixpoint indexFunc_loop (fuel : nat) (s : string) (f : Z -> bool)
    (truth : bool) (i : Z) : Z :=
  match fuel with
  | O => -1
  | S fuel' =>
      if len s <=? i then -1
      else
        let '(r, w) := go_utf8.DecodeRuneInString (slice_from s i) in
        if Bool.eqb (f r) truth then i
        else indexFunc_loop fuel' s f truth (i + w)
  end.
Definition indexFunc (s : string) (f : Z -> bool) (truth : bool) : Z :=
  indexFunc_loop (String.length s) s f truth 0.

Fixpoint lastIndexFunc_loop (fuel : nat) (s : string) (f : Z -> bool)
    (truth : bool) (i : Z) : Z :=
  match fuel with
  | O => -1
  | S fuel' =>
      if i <=? 0 then -1
      else
        let '(r, size) := go_utf8.DecodeLastRuneInString (slice_to s i) in
        let i := i - size in
        if Bool.eqb (f r) truth then i
        else lastIndexFunc_loop fuel' s f truth i
  end.
Definition lastIndexFunc (s : string) (f : Z -> bool) (truth : bool) : Z :=
  lastIndexFunc_loop (String.length s) s f truth (len s).

Definition TrimLeftFunc (s : string) (f : Z -> bool) : string :=
  let i := indexFunc s f false in
  if i =? -1 then "" else slice_from s i.

Definition TrimRightFunc (s : string) (f : Z -> bool) : string :=
  let i := lastIndexFunc s f false in
  let i :=
    if (0 <=? i) && (go_utf8.RuneSelf <=? byte_at s i)
    then i + snd (go_utf8.DecodeRuneInString (slice_from s i))
    else i + 1 in
  slice_to s i.

Definition TrimFunc (s : string) (f : Z -> bool) : string :=
  TrimRightFunc (TrimLeftFunc s f) f.

Definition asciiSpace (c : Z) : bool :=
  (c =? 9) || (c =? 10) || (c =? 11) || (c =? 12) || (c =? 13) || (c =? 32).

(** The two scans of [TrimSpace]. Each returns either the index where the
    scan stopped ([inl]) or the result of the Unicode-aware fallback
    taken at the first non-ASCII byte ([inr]). *)
Fixpoint trim_start (fuel : nat) (s : string) (start : Z) : Z + string :=
  match fuel with
  | O => inl start
  | S fuel' =>
      if len s <=? start then inl start
      else
        let c := byte_at s start in
        if go_utf8.RuneSelf <=? c
        then inr (TrimFunc (slice_from s start) go_unicode.IsSpace)
        else if negb (asciiSpace c) then inl start
        else trim_start fuel' s (start + 1)
  end.

Fixpoint trim_stop (fuel : nat) (s : string) (start stop : Z) : Z + string :=
  match fuel with
  | O => inl stop
  | S fuel' =>
      if stop <=? start then inl stop
      else
        let c := byte_at s (stop - 1) in
        if go_utf8.RuneSelf <=? c
        then inr (TrimRightFunc (slice_to (slice_from s start) (stop - start))
                    go_unicode.IsSpace)
        else if negb (asciiSpace c) then inl stop
        else trim_stop fuel' s start (stop - 1)
  end.

(** [TrimSpace]: [s] without its leading and trailing white space. *)
Definition TrimSpace (s : string) : string :=
  match trim_start (String.length s) s 0 with
  | inr r => r
  | inl start =>
      match trim_stop (String.length s) s start (len s) with
      | inr r => r
      | inl stop => slice_to (slice_from s start) (stop - start)
      end
  end.

End go_strings.

(** ** Package net/url *)
Module go_url.

Definition upperhex (d : Z) : ascii :=
  if d <? 10 then byte_chr (48 + d) else byte_chr (55 + d).

(** [shouldEscape c encodeQueryComponent]: everything but the unreserved
    characters is escaped in a query component. *)
Definition shouldEscape (c : Z) : bool :=
  if ((97 <=? c) && (c <=? 122)) || ((65 <=? c) && (c <=? 90))
     || ((48 <=? c) && (c <=? 57))
  then false
  else if (c =? 45) || (c =? 95) || (c =? 46) || (c =? 126) then false
  else true.

Definition escape_byte (ch : ascii) : string :=
  let c := byte_val ch in
  if c =? 32 then "+"
  else if shouldEscape c then
    String "%" (String (upperhex (Z.shiftr c 4))
               (String (upperhex (Z.land c 15)) ""))
  else String ch "".

(** [QueryEscape]: the string escaped so that it can be placed inside a
    URL query. *)
Fixpoint QueryEscape (s : string) : string :=
  match s with
  | "" => ""
  | String ch s' => escape_byte ch +:+ QueryEscape s'
  end.

End go_url.

(** ** Package encoding/json, for structs of strings *)
Module go_json.

Definition hex (d : Z) : ascii :=
  if d <? 10 then byte_chr (48 + d) else byte_chr (87 + d).

(** [htmlSafeSet]: the ASCII characters written without escaping. *)
Definition htmlSafeSet (b : Z) : bool :=
  (32 <=? b) && negb ((b =? 34) || (b =? 38) || (b =? 60) || (b =? 62)
                      || (b =? 92)).

Definition escape_ascii (ch : ascii) : string :=
  let b := byte_val ch in
  if (b =? 92) || (b =? 34) then String "\" (String ch "")
  else if b =? 8 then "\b"
  else if b =? 12 then "\f"
  else if b =? 10 then "\n"
  else if b =? 13 then "\r"
  else if b =? 9 then "\t"
  else "\u00" +:+ String (hex (Z.shiftr b 4)) (String (hex (Z.land b 15)) "").

(** The body of [appendString] with HTML escaping on: what is written
    between the two quotes. Every round consumes at least one byte. *)
Fixpoint string_body (fuel : nat) (src : string) : string :=
  match fuel with
  | O => ""
  | S fuel' =>
    match src with
    | "" => ""
    | String ch rest =>
      let b := byte_val ch in
      if b <? go_utf8.RuneSelf then
        (if htmlSafeSet b then String ch "" else escape_ascii ch)
        +:+ string_body fuel' rest
      else
        let '(c, size) := go_utf8.DecodeRuneInString src in
        if (c =? go_utf8.RuneError) && (size =? 1) then
          "\ufffd" +:+ string_body fuel' (slice_from src size)
        else if (c =? 8232) || (c =? 8233) then
          "\u202" +:+ String (hex (Z.land c 15)) ""
          +:+ string_body fuel' (slice_from src size)
        else
          slice_to src size +:+ string_body fuel' (slice_from src size)
    end
  end.

Definition appendString (src : string) : string :=
  dq +:+ string_body (String.length src) src +:+ dq.

(** A struct field as the encoder sees it: the key of its [json] tag,
    whether the tag says [omitempty], and the value. *)
Record field := Field { key : string; omitempty : bool; value : string }.

Definition emitted (f : field) : bool :=
  negb (omitempty f && (len (value f) =? 0)).

Definition encode_field (f : field) : string :=
  appendString (key f) +:+ ":" +:+ appendString (value f).

(** [Marshal] of a struct of strings: the fields in declaration order,
    empty [omitempty] fields left out. Encoding strings cannot fail. *)
Definition Marshal_struct (fs : list field) : string :=
  "{" +:+ go_strings.Join (map encode_field (List.filter emitted fs)) "," +:+ "}".

End go_json.

(** ** Errors, contexts and the outside world *)

(** What [Sys()] of a process state holds: a [syscall.WaitStatus] on Unix,
    something else elsewhere. *)
Inductive SysValue :=
| WaitStatus (w : Z)
| SysOther.

(** Go's [error] values as the program distinguishes them: an
    [*exec.ExitError] (the process ran and did not succeed) or any other
    error; [Error] is the text [%v] prints. *)
Inductive error :=
| ExitError (sys : SysValue) (msg : string)
| Errorf (msg : string).

Definition Error (e : error) : string :=
  match e with
  | ExitError _ msg => msg
  | Errorf msg => msg
  end.

(** Package syscall on Linux: the wait status word. *)
Module go_syscall.
Definition mask : Z := 127.
Definition exited : Z := 0.
Definition shift : Z := 8.
Definition Exited (w : Z) : bool := Z.land w mask =? exited.
Definition ExitStatus (w : Z) : Z :=
  if negb (Exited w) then -1 else Z.land (Z.shiftr w shift) 255.
End go_syscall.

(** [ctx.Err()]. *)
Inductive CtxErr :=
| ctx_nil
| Canceled
| DeadlineExceeded.

(** A context: cancellable, with a deadline after [d] nanoseconds when
    [ctx_deadline] is [Some d]. *)
Record Context := { ctx_deadline : option Z }.

(** What the run of the monitored command leaves behind: the two buffers
    and the error of [cmd.Run]. *)
Record ProcessResult := {
  proc_stdout : string;
  proc_stderr : string;
  proc_err : option error
}.

(** What [fs.Parse] found on the command line: the value of each flag that
    was set. *)
Record FlagValues := {
  set_c : option string;
  set_w : option string;
  set_s : option string;
  set_slack_webhook : option string;
  set_slack_msg : option string;
  set_timeout : option Z;
  set_d : option bool;
  set_h : option bool
}.

(** [fs.Parse] returns the flags, returns an error, or (the flag set is
    created with [flag.ExitOnError]) ends the process itself. *)
Inductive ParseResult :=
| Parsed (v : FlagValues)
| ParseFailed (err : error)
| ParseExits (code : Z).

(** Everything the program observes outside itself, one message to the
    outside per constructor; a request carries the answer it received.
    [Call] is a dynamic call of [Handle] through the [FailureHandler]
    interface, with the events of the callee inside. *)
#[local] Unset Elimination Schemes.
Inductive Event :=
| Stdout (text : string)
| Stderr (text : string)
| Spawn (command : string) (args : list string) (res : ProcessResult)
| Shell (command : string) (res : option error)
| HttpGet (url : string) (res : error + Z)
| HttpPost (url contentType body : string) (res : error + Z)
| SyslogNew (res : option error)
| SyslogErr (msg : string) (res : option error)
| SyslogClose
| Call (description : string) (exitCode : Z) (output : string)
       (inner : list Event) (res : option error).
#[local] Set Elimination Schemes.

(** A placeholder function: Go's [func(exitCode int, output string) string].
    Such a function may read the outside world (the built-in ones read the
    wall clock) but has no access to the registry it is stored in. The
    first argument is its reading of the outside world; for the built-in
    functions it is the clock, [fun layout => time.Now().Format(layout)]. *)
Definition PlaceholderFunc : Type := (string -> string) -> Z -> string -> string.

(** [type PlaceholderRegistry struct { placeholders map[string]PlaceholderFunc }] *)
Record PlaceholderRegistry := { placeholders : gmap string PlaceholderFunc }.

Global Instance PlaceholderRegistry_inhabited : Inhabited PlaceholderRegistry :=
  populate {| placeholders := ∅ |}.

(** The answers of the environment: the parser of package flag, the clock,
    the scheduler of map iteration, the operating system running commands,
    the state of the context (timer and signals), the HTTP endpoints and
    the syslog daemon. The [nat] argument is the number of questions asked
    before, so that the same request can be answered differently at
    different moments. *)
Record Env := {
  flag_Parse : list string -> ParseResult;
  time_Now : nat -> Z;
  time_Format : Z -> string -> string;
  Duration_String : Z -> string;
  range_choice : nat -> nat -> nat;
  cmd_Run : nat -> Context -> string -> list string -> ProcessResult;
  ctx_Err : nat -> Context -> CtxErr;
  sh_Run : nat -> string -> option error;
  http_Get : nat -> string -> error + Z;
  http_Post : nat -> string -> string -> string -> error + Z;
  syslog_New : nat -> option error;
  syslog_Err : nat -> string -> option error
}.

(** The state of the process: the events so far (oldest first), the number
    of questions asked, and the heap of placeholder registries with the
    next free address. *)
Record World := {
  trace : list Event;
  tick : nat;
  heap : gmap nat PlaceholderRegistry;
  next : nat
}.

Definition World0 : World := {| trace := []; tick := 0; heap := ∅; next := 0 |}.

Definition set_trace (t : list Event) (w : World) : World :=
  {| trace := t; tick := tick w; heap := heap w; next := next w |}.
Definition set_tick (n : nat) (w : World) : World :=
  {| trace := trace w; tick := n; heap := heap w; next := next w |}.
Definition set_heap (h : gmap nat PlaceholderRegistry) (w : World) : World :=
  {| trace := trace w; tick := tick w; heap := h; next := next w |}.
Definition set_next (n : nat) (w : World) : World :=
  {| trace := trace w; tick := tick w; heap := heap w; next := n |}.

(** ** The monad of effects *)
Definition IO (A : Type) : Type := Env -> World -> A * World.

Global Instance IO_ret : MRet IO := fun A a _ w => (a, w).
Global Instance IO_bind : MBind IO :=
  fun A B k m env w => let '(a, w') := m env w in k a env w'.

(** Primitive effects. *)
Definition emit (e : Event) : IO unit :=
  fun _ w => (tt, set_trace (trace w ++ [e]) w).

Definition ask {A} (q : Env -> nat -> A) : IO A :=
  fun env w => (q env (tick w), set_tick (S (tick w)) w).

Definition Printf (text : string) : IO unit := emit (Stdout text).
Definition Println (text : string) : IO unit := emit (Stdout (text +:+ nl)).
Definition Fprintf_Stderr (text : string) : IO unit := emit (Stderr text).

Definition when (b : bool) (m : IO unit) : IO unit := if b then m else mret tt.

(** [for _, x := range l { body }], and the same loop threading a local
    variable. *)
Fixpoint for_range {A} (l : list A) (body : A -> IO unit) : IO unit :=
  match l with
  | [] => mret tt
  | x :: l' => body x;; for_range l' body
  end.

Fixpoint for_range_acc {A B} (l : list A) (acc : B) (body : B -> A -> IO B) : IO B :=
  match l with
  | [] => mret acc
  | x :: l' => acc' ← body acc x; for_range_acc l' acc' body
  end.

(** The order in which [range] visits a map is not specified. The
    environment chooses: with [n] entries left, entry number
    [choice n mod n] of those not yet visited comes next. *)
Fixpoint pick_order {A} (n : nat) (choice : nat -> nat) (l : list A) : list A :=
  match n with
  | O => []
  | S n' =>
      let i := (choice n `mod` length l)%nat in
      match l !! i with
      | Some x => x :: pick_order n' choice (delete i l)
      | None => []
      end
  end.

Definition range_map {V} (m : gmap string V) : IO (list (string * V)) :=
  choice ← ask range_choice;
  mret (pick_order (length (map_to_list m)) choice (map_to_list m)).

(** The clock as a placeholder function sees it at this moment. *)
Definition read_clock : IO (string -> string) :=
  fun env w => (time_Format env (time_Now env (tick w)), set_tick (S (tick w)) w).

(** ** Package handlers: the placeholder registry (placeholder.go) *)
Module handlers.

(** A [*PlaceholderRegistry] is the address of a registry on the heap.
    Addresses are only ever made by [NewPlaceholderRegistry]; an address
    never allocated reads as a registry whose map is nil. *)
Definition load (pr : nat) : IO PlaceholderRegistry :=
  fun _ w => (heap w !!! pr, w).

Definition store (pr : nat) (r : PlaceholderRegistry) : IO unit :=
  fun _ w => (tt, set_heap (<[pr := r]> (heap w)) w).

Definition alloc (r : PlaceholderRegistry) : IO nat :=
  fun _ w => (next w, set_next (S (next w)) (set_heap (<[next w := r]> (heap w)) w)).

(** [Register] adds a new placeholder to the registry. *)
Definition Register (pr : nat) (placeholder : string) (fn : PlaceholderFunc) : IO unit :=
  r ← load pr;
  store pr {| placeholders := <[placeholder := fn]> (placeholders r) |}.

(** [NewPlaceholderRegistry] creates a new registry with default
    placeholders. *)
Definition NewPlaceholderRegistry : IO nat :=
  registry ← alloc {| placeholders := ∅ |};
  Register registry "__STATUS_CODE__" (fun _ exitCode _ => pretty exitCode);;
  Register registry "__OUTPUT__" (fun _ _ output => output);;
  Register registry "__TIMESTAMP__" (fun now _ _ => now "2006-01-02T15:04:05Z07:00");;
  Register registry "__DATE__" (fun now _ _ => now "2006-01-02");;
  Register registry "__TIME__" (fun now _ _ => now "15:04:05");;
  mret registry.

(** [Replace] replaces all registered placeholders in the given text. *)
Definition Replace (pr : nat) (text : string) (exitCode : Z) (output : string) : IO string :=
  r ← load pr;
  entries ← range_map (placeholders r);
  for_range_acc entries text (fun result '(placeholder, fn) =>
    now ← read_clock;
    let replacement := fn now exitCode output in
    mret (go_strings.Replace result placeholder replacement (-1))).

(** [ReplaceURLEncoded] replaces all registered placeholders in the given
    text and URL-encodes their values. *)
Definition ReplaceURLEncoded (pr : nat) (text : string) (exitCode : Z) (output : string) : IO string :=
  r ← load pr;
  entries ← range_map (placeholders r);
  for_range_acc entries text (fun result '(placeholder, fn) =>
    now ← read_clock;
    let replacement := go_url.QueryEscape (fn now exitCode output) in
    mret (go_strings.Replace result placeholder replacement (-1))).

(** *** The handlers (handlers.go, slack.go) *)

(** [FailureHandler] defines the interface for handling command
    failures. *)
Class FailureHandler (H : Type) := {
  Handle : H -> Z -> string -> IO (option error);
  Description : H -> string
}.

(** [CommandHandler] executes a shell command on failure. *)
Record CommandHandler := {
  ch_command : string;
  ch_registry : nat
}.

Definition NewCommandHandler (command : string) : IO CommandHandler :=
  registry ← NewPlaceholderRegistry;
  mret {| ch_command := command; ch_registry := registry |}.

(** [exec.Command(sh, -c, command)] with the standard streams inherited,
    then [cmd.Run()]. *)
Definition run_shell (command : string) : IO (option error) :=
  fun env w =>
    let res := sh_Run env (tick w) command in
    (res, set_trace (trace w ++ [Shell command res]) (set_tick (S (tick w)) w)).

Definition CommandHandler_Handle (h : CommandHandler) (exitCode : Z) (output : string)
    : IO (option error) :=
  command ← Replace (ch_registry h) (ch_command h) exitCode output;
  run_shell command.

Global Instance CommandHandler_FailureHandler : FailureHandler CommandHandler := {
  Handle := CommandHandler_Handle;
  Description h := "Execute command: " +:+ ch_command h
}.

(** [WebhookHandler] calls a webhook URL on failure. *)
Record WebhookHandler := {
  wh_webhookURL : string;
  wh_registry : nat
}.

Definition NewWebhookHandler (webhookURL : string) : IO WebhookHandler :=
  registry ← NewPlaceholderRegistry;
  mret {| wh_webhookURL := webhookURL; wh_registry := registry |}.

Definition http_get (url : string) : IO (error + Z) :=
  fun env w =>
    let res := http_Get env (tick w) url in
    (res, set_trace (trace w ++ [HttpGet url res]) (set_tick (S (tick w)) w)).

Definition http_post (url contentType body : string) : IO (error + Z) :=
  fun env w =>
    let res := http_Post env (tick w) url contentType body in
    (res, set_trace (trace w ++ [HttpPost url contentType body res])
            (set_tick (S (tick w)) w)).

Definition WebhookHandler_Handle (h : WebhookHandler) (exitCode : Z) (output : string)
    : IO (option error) :=
  webhookURL ← ReplaceURLEncoded (wh_registry h) (wh_webhookURL h) exitCode output;
  resp ← http_get webhookURL;
  match resp with
  | inl err => mret (Some err)
  | inr StatusCode =>
      if 400 <=? StatusCode
      then mret (Some (Errorf ("webhook returned status code " +:+ pretty StatusCode)))
      else mret None
  end.

Global Instance WebhookHandler_FailureHandler : FailureHandler WebhookHandler := {
  Handle := WebhookHandler_Handle;
  Description h := "Call webhook: " +:+ wh_webhookURL h
}.

(** [SyslogHandler] sends a message to syslog on failure. *)
Record SyslogHandler := {
  sy_message : string;
  sy_registry : nat
}.

Definition NewSyslogHandler (message : string) : IO SyslogHandler :=
  registry ← NewPlaceholderRegistry;
  mret {| sy_message := message; sy_registry := registry |}.

Definition syslog_new : IO (option error) :=
  fun env w =>
    let res := syslog_New env (tick w) in
    (res, set_trace (trace w ++ [SyslogNew res]) (set_tick (S (tick w)) w)).

Definition syslog_err (msg : string) : IO (option error) :=
  fun env w =>
    let res := syslog_Err env (tick w) msg in
    (res, set_trace (trace w ++ [SyslogErr msg res]) (set_tick (S (tick w)) w)).

Definition SyslogHandler_Handle (h : SyslogHandler) (exitCode : Z) (output : string)
    : IO (option error) :=
  message ← Replace (sy_registry h) (sy_message h) exitCode output;
  err ← syslog_new;
  match err with
  | Some e => mret (Some e)
  | None =>
      res ← syslog_err message;
      emit SyslogClose;;
      mret res
  end.

Global Instance SyslogHandler_FailureHandler : FailureHandler SyslogHandler := {
  Handle := SyslogHandler_Handle;
  Description h := "Send to syslog: " +:+ sy_message h
}.

(** [SlackHandler] sends a message to Slack on failure. *)
Record SlackHandler := {
  sl_webhookURL : string;
  sl_message : string;
  sl_channel : string;
  sl_username : string;
  sl_registry : nat
}.

(** [SlackMessage] represents a Slack message payload. *)
Record SlackMessage := {
  Text : string;
  Channel : string;
  Username : string
}.

(** The struct as [json.Marshal] sees it through its tags. *)
Definition SlackMessage_fields (m : SlackMessage) : list go_json.field :=
  [ go_json.Field "text" false (Text m);
    go_json.Field "channel" true (Channel m);
    go_json.Field "username" true (Username m) ].

Definition Marshal_SlackMessage (m : SlackMessage) : string * option error :=
  (go_json.Marshal_struct (SlackMessage_fields m), None).

Definition NewSlackHandler (webhookURL message : string)
    (options : list (SlackHandler -> SlackHandler)) : IO SlackHandler :=
  registry ← NewPlaceholderRegistry;
  let handler := {| sl_webhookURL := webhookURL; sl_message := message;
                    sl_channel := ""; sl_username := "FailHook";
                    sl_registry := registry |} in
  mret (fold_left (fun h option => option h) options handler).

(** [WithChannel] sets the Slack channel for the message. *)
Definition WithChannel (channel : string) (h : SlackHandler) : SlackHandler :=
  {| sl_webhookURL := sl_webhookURL h; sl_message := sl_message h;
     sl_channel := channel; sl_username := sl_username h;
     sl_registry := sl_registry h |}.

(** [WithUsername] sets the username for the Slack message. *)
Definition WithUsername (username : string) (h : SlackHandler) : SlackHandler :=
  {| sl_webhookURL := sl_webhookURL h; sl_message := sl_message h;
     sl_channel := sl_channel h; sl_username := username;
     sl_registry := sl_registry h |}.

Definition SlackHandler_Handle (h : SlackHandler) (exitCode : Z) (output : string)
    : IO (option error) :=
  message ← Replace (sl_registry h) (sl_message h) exitCode output;
  let slackMsg := {| Text := message; Channel := ""; Username := sl_username h |} in
  let slackMsg :=
    if negb (String.eqb (sl_channel h) "")
    then {| Text := Text slackMsg; Channel := sl_channel h; Username := Username slackMsg |}
    else slackMsg in
  let '(payload, err) := Marshal_SlackMessage slackMsg in
  match err with
  | Some e => mret (Some (Errorf ("error marshaling Slack message: " +:+ Error e)))
  | None =>
      resp ← http_post (sl_webhookURL h) "application/json" payload;
      match resp with
      | inl e => mret (Some (Errorf ("error sending Slack message: " +:+ Error e)))
      | inr StatusCode =>
          if negb (StatusCode =? 200)
          then mret (Some (Errorf ("slack API returned status code " +:+ pretty StatusCode)))
          else mret None
      end
  end.

Global Instance SlackHandler_FailureHandler : FailureHandler SlackHandler := {
  Handle := SlackHandler_Handle;
  Description h := "Send to Slack: " +:+ sl_message h
}.

(** A value of interface type [FailureHandler]: a value of some type that
    implements the interface. *)
Inductive handler : Type :=
| Dyn {H : Type} `{FailureHandler H} (h : H).

Definition handler_Description (x : handler) : string :=
  match x with Dyn h => Description h end.

(** The dynamic call [x.Handle(exitCode, output)]: the callee runs to
    completion; the caller sees one [Call] event holding what the callee
    did and returned. *)
Definition handler_Handle (x : handler) (exitCode : Z) (output : string)
    : IO (option error) :=
  fun env w =>
    match x with
    | Dyn h =>
        let '(res, w') := Handle h exitCode output env (set_trace [] w) in
        (res, set_trace (trace w ++ [Call (Description h) exitCode output (trace w') res]) w')
    end.

End handlers.

(** ** Package main (main.go) *)
Module failhook.
Import handlers.

(** [FailHook] manages the monitoring and failure handling. The methods
    have a pointer receiver; the ones that change the struct return it. *)
Record FailHook := {
  fh_handlers : list handler;
  fh_debug : bool
}.

Definition NewFailHook (debug : bool) : FailHook :=
  {| fh_handlers := []; fh_debug := debug |}.

(** [AddHandler] adds a failure handler to the FailHook. *)
Definition AddHandler (fh : FailHook) (h : handler) : IO FailHook :=
  let fh := {| fh_handlers := fh_handlers fh ++ [h]; fh_debug := fh_debug fh |} in
  when (fh_debug fh) (Printf ("Added handler: " +:+ handler_Description h +:+ nl));;
  mret fh.

(** [exec.CommandContext(ctx, command, args...)] with both streams
    buffered, then [cmd.Run()]. *)
Definition run_command (ctx : Context) (command : string) (args : list string)
    : IO ProcessResult :=
  fun env w =>
    let res := cmd_Run env (tick w) ctx command args in
    (res, set_trace (trace w ++ [Spawn command args res]) (set_tick (S (tick w)) w)).

(** The exit code [RunCommand] derives from the error of [cmd.Run]. *)
Definition exit_code_of (err : option error) : Z :=
  match err with
  | Some (ExitError (WaitStatus status) _) => go_syscall.ExitStatus status
  | Some (ExitError SysOther _) => 1
  | Some (Errorf _) => 1
  | None => 0
  end.

(** [RunCommand] runs a command and captures its output and exit code. *)
Definition RunCommand (fh : FailHook) (ctx : Context) (command : string)
    (args : list string) : IO (Z * string * option error) :=
  when (fh_debug fh)
    (Printf ("Running command: " +:+ command +:+ " " +:+ go_strings.Join args " " +:+ nl));;
  startTime ← ask time_Now;
  res ← run_command ctx command args;
  endTime ← ask time_Now;
  duration ← (fun env w => (Duration_String env (endTime - startTime), w));
  when (fh_debug fh) (Printf ("Command completed in " +:+ duration +:+ nl));;
  let err := proc_err res in
  let exitCode := exit_code_of err in
  let output := go_strings.TrimSpace (proc_stdout res +:+ proc_stderr res) in
  mret (exitCode, output, err).

(** [HandleFailure] executes all registered handlers with the exit code
    and output. *)
Definition HandleFailure (fh : FailHook) (exitCode : Z) (output : string) : IO unit :=
  for_range (fh_handlers fh) (fun h =>
    when (fh_debug fh) (Printf ("Executing handler: " +:+ handler_Description h +:+ nl));;
    err ← handler_Handle h exitCode output;
    match err with
    | Some e =>
        Fprintf_Stderr ("Error with handler " +:+ handler_Description h +:+ ": "
                        +:+ Error e +:+ nl)
    | None => mret tt
    end).

Definition printUsage : IO unit :=
  Println "Usage:";;
  Println "  failhook [OPTIONS] -- program [args...]";;
  Println (nl +:+ "Options:");;
  Println "  -c  Command to execute on failure";;
  Println "  -w  Webhook URL to call on failure";;
  Println "  -s  Message to send to syslog on failure";;
  Println "  -slack-webhook  Slack webhook URL";;
  Println ("  -slack-msg      Message to send to Slack (default: " +:+ dq
           +:+ "Command failed with exit code __STATUS_CODE__\n```\n__OUTPUT__\n```"
           +:+ dq +:+ ")");;
  Println "  -timeout        Timeout in seconds (0 means no timeout)";;
  Println "  -d              Enable debug mode";;
  Println "  -h              Show this help message";;
  Println (nl +:+ "Placeholders:");;
  Println "  __STATUS_CODE__  Exit code of the failed command";;
  Println "  __OUTPUT__       Combined stdout and stderr output of the failed command";;
  Println "  __TIMESTAMP__    Current timestamp in RFC3339 format";;
  Println "  __DATE__         Current date (YYYY-MM-DD)";;
  Println "  __TIME__         Current time (HH:MM:SS)";;
  Println (nl +:+ "Examples:");;
  Println ("  failhook -c " +:+ dq +:+ "echo 'Command failed with code: __STATUS_CODE__'"
           +:+ dq +:+ " -- /path/to/program");;
  Println ("  failhook -w " +:+ dq
           +:+ "https://example.com/hook?status=__STATUS_CODE__&output=__OUTPUT__"
           +:+ dq +:+ " -- /path/to/program");;
  Println ("  failhook -slack-webhook " +:+ dq
           +:+ "https://hooks.slack.com/services/XXX/YYY/ZZZ" +:+ dq
           +:+ " -- /path/to/program");;
  Println ("  failhook -timeout 30 -s " +:+ dq +:+ "Program timed out after 30s" +:+ dq
           +:+ " -- /path/to/long-running-program").

(** How the process ends: [os.Exit(code)], a return from [main] (exit
    status 0), or a run-time panic (exit status 2). *)
Inductive Outcome :=
| Exit (code : Z)
| Return
| Panic.

Definition exit_status (o : Outcome) : Z :=
  match o with
  | Exit code => code
  | Return => 0
  | Panic => 2
  end.

(** The variables of [main] the flags are parsed into. *)
Record Flags := {
  command : string;
  webhook : string;
  syslogMsg : string;
  slackWebhook : string;
  slackMsg : string;
  timeout : Z;
  debug : bool;
  showUsage : bool
}.

(** The flag definitions: each variable holds the value found on the
    command line, or else the default given at its definition. *)
Definition flag_vars (v : FlagValues) : Flags := {|
  command := default "" (set_c v);
  webhook := default "" (set_w v);
  syslogMsg := default "" (set_s v);
  slackWebhook := default "" (set_slack_webhook v);
  slackMsg := default ("Command failed with exit code __STATUS_CODE__" +:+ nl +:+ "```"
                       +:+ nl +:+ "__OUTPUT__" +:+ nl +:+ "```") (set_slack_msg v);
  timeout := default 0 (set_timeout v);
  debug := default false (set_d v);
  showUsage := default false (set_h v)
|}.

(** Find where the [--] separator is. *)
Fixpoint find_separator (i : Z) (args : list string) : Z :=
  match args with
  | [] => -1
  | arg :: rest => if String.eqb arg "--" then i else find_separator (i + 1) rest
  end.

(** 64-bit signed wrap-around, for [time.Duration(timeout)*time.Second]. *)
Definition wrap64 (x : Z) : Z := (x + 2^63) `mod` 2^64 - 2^63.

(** Setup of the context: cancellable, with a deadline when a timeout is
    given. *)
Definition make_context (timeout : Z) : Context :=
  if 0 <? timeout then {| ctx_deadline := Some (wrap64 (timeout * 1000000000)) |}
  else {| ctx_deadline := None |}.

(** Register handlers based on flags. *)
Definition register_handlers (f : Flags) : IO FailHook :=
  let failhook := NewFailHook (debug f) in
  failhook ←
    (if negb (String.eqb (command f) "")
     then h ← NewCommandHandler (command f); AddHandler failhook (Dyn h)
     else mret failhook);
  failhook ←
    (if negb (String.eqb (webhook f) "")
     then h ← NewWebhookHandler (webhook f); AddHandler failhook (Dyn h)
     else mret failhook);
  failhook ←
    (if negb (String.eqb (syslogMsg f) "")
     then h ← NewSyslogHandler (syslogMsg f); AddHandler failhook (Dyn h)
     else mret failhook);
  (if negb (String.eqb (slackWebhook f) "")
   then h ← NewSlackHandler (slackWebhook f) (slackMsg f) []; AddHandler failhook (Dyn h)
   else mret failhook).

Definition is_DeadlineExceeded (c : CtxErr) : bool :=
  match c with DeadlineExceeded => true | _ => false end.
Definition is_Canceled (c : CtxErr) : bool :=
  match c with Canceled => true | _ => false end.

(** Check if the context was canceled due to timeout, or interrupted:
    the exit code and output the run resolves to. Each [ctx.Err()] is a
    reading of the context of its own. *)
Definition classify (ctx : Context) (timeout : Z) (run : Z * string * option error)
    : IO (Z * string) :=
  let '(exitCode, output, err) := run in
  c ← ask (fun env n => ctx_Err env n ctx);
  if is_DeadlineExceeded c then
    Fprintf_Stderr ("Command timed out after " +:+ pretty timeout +:+ " seconds" +:+ nl);;
    mret (124, "Command timed out after " +:+ pretty timeout +:+ " seconds")
  else
    c ← ask (fun env n => ctx_Err env n ctx);
    if is_Canceled c && bool_decide (err ≠ None) then
      Fprintf_Stderr ("Command was interrupted" +:+ nl);;
      mret (130, "Command was interrupted")
    else mret (exitCode, output).

(** The end of [main]: leave on success, handle the failure otherwise. *)
Definition dispatch (failhook : FailHook) (debug : bool) (exitCode : Z) (output : string)
    : IO Outcome :=
  if exitCode =? 0 then
    when debug (Println "Command succeeded, exiting normally");;
    mret (Exit 0)
  else
    when debug (Printf ("Command failed with exit code " +:+ pretty exitCode
                        +:+ ", executing handlers" +:+ nl));;
    HandleFailure failhook exitCode output;;
    mret Return.

(** [main] from the parsed flags to the resolved exit code and output. *)
Definition resolve (f : Flags) (monitoredCmd : string) (monitoredArgs : list string)
    : IO (FailHook * Z * string) :=
  when (debug f)
    (Printf ("Monitoring command: " +:+ monitoredCmd +:+ " "
             +:+ go_strings.Join monitoredArgs " " +:+ nl));;
  let ctx := make_context (timeout f) in
  failhook ← register_handlers f;
  run ← RunCommand failhook ctx monitoredCmd monitoredArgs;
  '(exitCode, output) ← classify ctx (timeout f) run;
  mret (failhook, exitCode, output).

(** [main] from the parsed flags on. *)
Definition supervise (f : Flags) (monitoredCmd : string) (monitoredArgs : list string)
    : IO Outcome :=
  '(failhook, exitCode, output) ← resolve f monitoredCmd monitoredArgs;
  dispatch failhook (debug f) exitCode output.

(** [main], given [os.Args]. *)
Definition main (Args : list string) : IO Outcome :=
  let sepIndex := find_separator 0 Args in
  if (sepIndex =? -1) || (sepIndex =? len_list Args - 1) then
    printUsage;;
    Println "Error: Monitored command must be specified after --";;
    mret (Exit 1)
  else if sepIndex <? 1 then mret Panic   (* os.Args[1:0] *)
  else
    parsed ← (fun env w =>
                (flag_Parse env (take (Z.to_nat (sepIndex - 1)) (drop 1 Args)), w));
    match parsed with
    | ParseExits code => mret (Exit code)
    | ParseFailed err =>
        Printf ("Error parsing flags: " +:+ Error err +:+ nl);;
        printUsage;;
        mret (Exit 1)
    | Parsed v =>
        let f := flag_vars v in
        if showUsage f then printUsage;; mret (Exit 0)
        else
          let monitoredCmd := default "" (Args !! Z.to_nat (sepIndex + 1)) in
          let monitoredArgs :=
            if sepIndex + 2 <? len_list Args
            then drop (Z.to_nat (sepIndex + 2)) Args else [] in
          supervise f monitoredCmd monitoredArgs
    end.

End failhook.

(** ** Notions the specification speaks about *)

(** The entries of registry [pr] in the order a [range] started in world
    [w] visits them. *)
Definition visit_order (env : Env) (w : World) (pr : nat)
    : list (string * PlaceholderFunc) :=
  let m := placeholders (heap w !!! pr) in
  pick_order (length (map_to_list m)) (range_choice env (tick w)) (map_to_list m).

(** The token and the value of its function for each entry, the clock
    being read at moment [t] for the first one, [S t] for the next, ... *)
Fixpoint values (env : Env) (t : nat) (exitCode : Z) (output : string)
    (entries : list (string * PlaceholderFunc)) : list (string * string) :=
  match entries with
  | [] => []
  | (p, fn) :: rest =>
      (p, fn (time_Format env (time_Now env t)) exitCode output)
      :: values env (S t) exitCode output rest
  end.

(** One pass of substitution: for each token in turn, all its occurrences
    are replaced by its value, encoded by [enc]. *)
Definition substitute (enc : string -> string) (steps : list (string * string))
    (text : string) : string :=
  fold_left (fun result '(p, v) => go_strings.Replace result p (enc v) (-1)) steps text.

(** The token is registered in registry [pr]. *)
Definition registered (w : World) (pr : nat) (token : string) : Prop :=
  is_Some (placeholders (heap w !!! pr) !! token).

(** The characters a query-escaped value is made of. *)
Definition url_safe (ch : ascii) : bool :=
  let c := byte_val ch in
  ((97 <=? c) && (c <=? 122)) || ((65 <=? c) && (c <=? 90)) || ((48 <=? c) && (c <=? 57))
  || (c =? 45) || (c =? 95) || (c =? 46) || (c =? 126) || (c =? 43) || (c =? 37).

Fixpoint all_chars (P : ascii -> bool) (s : string) : bool :=
  match s with
  | "" => true
  | String c s' => P c && all_chars P s'
  end.

(** The calls of [Handle] made at the top level of a trace. *)
Fixpoint calls (evs : list Event) : list (string * Z * string) :=
  match evs with
  | [] => []
  | Call d e o _ _ :: rest => (d, e, o) :: calls rest
  | _ :: rest => calls rest
  end.

(** What the dispatch of one handler leaves in the trace, given what the
    handler did ([inner]) and returned ([res]). *)
Definition dispatch_events (debug : bool) (description : string) (exitCode : Z)
    (output : string) (outcome : list Event * option error) : list Event :=
  (if debug then [Stdout ("Executing handler: " +:+ description +:+ nl)] else [])
  ++ [Call description exitCode output outcome.1 outcome.2]
  ++ match outcome.2 with
     | Some e => [Stderr ("Error with handler " +:+ description +:+ ": " +:+ Error e +:+ nl)]
     | None => []
     end.

(** The combined output as the specification words it: each buffer
    trimmed, the two concatenated, the whole trimmed again. *)
Definition combinedOutput_spec (stdout stderr : string) : string :=
  go_strings.TrimSpace (go_strings.TrimSpace stdout +:+ go_strings.TrimSpace stderr).

(** ** Sample environments *)

Definition no_flags : FlagValues := {|
  set_c := None; set_w := None; set_s := None; set_slack_webhook := None;
  set_slack_msg := None; set_timeout := None; set_d := None; set_h := None
|}.

(** An environment in which nothing goes wrong: the monitored command
    prints nothing and succeeds, every request succeeds, maps are visited
    in their stored order. *)
Definition calm : Env := {|
  flag_Parse := fun _ => Parsed no_flags;
  time_Now := fun n => Z.of_nat n;
  time_Format := fun _ layout => layout;
  Duration_String := fun d => pretty d +:+ "ns";
  range_choice := fun _ _ => 0%nat;
  cmd_Run := fun _ _ _ _ => {| proc_stdout := ""; proc_stderr := ""; proc_err := None |};
  ctx_Err := fun _ _ => ctx_nil;
  sh_Run := fun _ _ => None;
  http_Get := fun _ _ => inr 200;
  http_Post := fun _ _ _ _ => inr 200;
  syslog_New := fun _ => None;
  syslog_Err := fun _ _ => None
|}.

Definition with_flags (v : FlagValues) (env : Env) : Env := {|
  flag_Parse := fun _ => Parsed v;
  time_Now := time_Now env; time_Format := time_Format env;
  Duration_String := Duration_String env; range_choice := range_choice env;
  cmd_Run := cmd_Run env; ctx_Err := ctx_Err env; sh_Run := sh_Run env;
  http_Get := http_Get env; http_Post := http_Post env;
  syslog_New := syslog_New env; syslog_Err := syslog_Err env
|}.

Definition with_run (res : ProcessResult) (env : Env) : Env := {|
  flag_Parse := flag_Parse env;
  time_Now := time_Now env; time_Format := time_Format env;
  Duration_String := Duration_String env; range_choice := range_choice env;
  cmd_Run := fun _ _ _ _ => res; ctx_Err := ctx_Err env; sh_Run := sh_Run env;
  http_Get := http_Get env; http_Post := http_Post env;
  syslog_New := syslog_New env; syslog_Err := syslog_Err env
|}.

Definition with_ctx (c : CtxErr) (env : Env) : Env := {|
  flag_Parse := flag_Parse env;
  time_Now := time_Now env; time_Format := time_Format env;
  Duration_String := Duration_String env; range_choice := range_choice env;
  cmd_Run := cmd_Run env; ctx_Err := fun _ _ => c; sh_Run := sh_Run env;
  http_Get := http_Get env; http_Post := http_Post env;
  syslog_New := syslog_New env; syslog_Err := syslog_Err env
|}.

Definition with_shell (res : option error) (env : Env) : Env := {|
  flag_Parse := flag_Parse env;
  time_Now := time_Now env; time_Format := time_Format env;
  Duration_String := Duration_String env; range_choice := range_choice env;
  cmd_Run := cmd_Run env; ctx_Err := ctx_Err env; sh_Run := fun _ _ => res;
  http_Get := http_Get env; http_Post := http_Post env;
  syslog_New := syslog_New env; syslog_Err := syslog_Err env
|}.

Definition with_post (res : error + Z) (env : Env) : Env := {|
  flag_Parse := flag_Parse env;
  time_Now := time_Now env; time_Format := time_Format env;
  Duration_String := Duration_String env; range_choice := range_choice env;
  cmd_Run := cmd_Run env; ctx_Err := ctx_Err env; sh_Run := sh_Run env;
  http_Get := http_Get env; http_Post := fun _ _ _ _ => res;
  syslog_New := syslog_New env; syslog_Err := syslog_Err env
|}.

(** The wait status of a process that called [exit 42]. *)
Definition exit_42 : ProcessResult := {|
  proc_stdout := ""; proc_stderr := "";
  proc_err := Some (ExitError (WaitStatus (Z.shiftl 42 8)) "exit status 42")
|}.

(** The world after [NewPlaceholderRegistry] ran in the initial world: the
    registry with the built-in placeholders is at address 0. *)
Definition builtin_world : World := (handlers.NewPlaceholderRegistry calm World0).2.

(** The map [NewPlaceholderRegistry] builds. *)
Definition builtin_placeholders : gmap string PlaceholderFunc :=
  <["__TIME__" := (fun now _ _ => now "15:04:05") : PlaceholderFunc]>
  (<["__DATE__" := (fun now _ _ => now "2006-01-02") : PlaceholderFunc]>
  (<["__TIMESTAMP__" := (fun now _ _ => now "2006-01-02T15:04:05Z07:00") : PlaceholderFunc]>
  (<["__OUTPUT__" := (fun _ _ output => output) : PlaceholderFunc]>
  (<["__STATUS_CODE__" := (fun _ exitCode _ => pretty exitCode) : PlaceholderFunc]> ∅)))).

(** The body of the loop of [HandleFailure], for one handler. *)
Definition handle_one (fh : failhook.FailHook) (exitCode : Z) (output : string)
    (h : handlers.handler) : IO unit :=
  (when (failhook.fh_debug fh)
     (Printf ("Executing handler: " +:+ handlers.handler_Description h +:+ nl));;
   err ← handlers.handler_Handle h exitCode output;
   match err with
   | Some e =>
       Fprintf_Stderr ("Error with handler " +:+ handlers.handler_Description h +:+ ": "
                       +:+ Error e +:+ nl)
   | None => mret tt
   end).

(** A program is quiet when all it adds to the trace is events other than
    calls of handlers. *)
Definition quiet {A} (m : IO A) : Prop :=
  forall env w, exists new, trace (m env w).2 = trace w ++ new /\ calls new = [].

(** The handlers the flags configure, in the order Command, Webhook,
    Syslog, Slack, their registries at the given addresses; and their
    descriptions. *)
Definition configured (f : failhook.Flags) (a b c d : nat) : list handlers.handler :=
  (if String.eqb (failhook.command f) "" then []
   else [handlers.Dyn {| handlers.ch_command := failhook.command f;
                         handlers.ch_registry := a |}])
  ++ (if String.eqb (failhook.webhook f) "" then []
      else [handlers.Dyn {| handlers.wh_webhookURL := failhook.webhook f;
                            handlers.wh_registry := b |}])
  ++ (if String.eqb (failhook.syslogMsg f) "" then []
      else [handlers.Dyn {| handlers.sy_message := failhook.syslogMsg f;
                            handlers.sy_registry := c |}])
  ++ (if String.eqb (failhook.slackWebhook f) "" then []
      else [handlers.Dyn {| handlers.sl_webhookURL := failhook.slackWebhook f;
                            handlers.sl_message := failhook.slackMsg f;
                            handlers.sl_channel := "";
                            handlers.sl_username := "FailHook";
                            handlers.sl_registry := d |}]).

Definition configured_descriptions (f : failhook.Flags) : list string :=
  (if String.eqb (failhook.command f) "" then []
   else ["Execute command: " +:+ failhook.command f])
  ++ (if String.eqb (failhook.webhook f) "" then []
      else ["Call webhook: " +:+ failhook.webhook f])
  ++ (if String.eqb (failhook.syslogMsg f) "" then []
      else ["Send to syslog: " +:+ failhook.syslogMsg f])
  ++ (if String.eqb (failhook.slackWebhook f) "" then []
      else ["Send to Slack: " +:+ failhook.slackMsg f]).

(** The JSON object a Slack message is marshalled to. *)
Definition slack_payload (text channel username : string) : string :=
  "{" +:+ dq +:+ "text" +:+ dq +:+ ":" +:+ go_json.appendString text
  +:+ (if String.eqb channel "" then ""
       else "," +:+ dq +:+ "channel" +:+ dq +:+ ":" +:+ go_json.appendString channel)
  +:+ (if String.eqb username "" then ""
       else "," +:+ dq +:+ "username" +:+ dq +:+ ":" +:+ go_json.appendString username)
  +:+ "}".

(** The command line [failhook -c "echo failed" -- sh -c "exit 42"], and
    an environment in which the flags are parsed as written and the
    monitored command exits with status 42. *)
Definition failing_args : list string :=
  ["failhook"; "-c"; "echo failed"; "--"; "sh"; "-c"; "exit 42"].

Definition failing_env : Env :=
  with_flags {| set_c := Some "echo failed"; set_w := None; set_s := None;
                set_slack_webhook := None; set_slack_msg := None;
                set_timeout := None; set_d := None; set_h := None |}
    (with_run exit_42 calm).

(** ** Notions for the further properties *)


(** The handlers added one after the other, as a caller of [AddHandler]
    does. *)
Definition add_handlers (fh : failhook.FailHook) (hs : list handlers.handler)
    : IO failhook.FailHook :=
  for_range_acc hs fh failhook.AddHandler.

(** The processes started at the top level of a trace, with their
    arguments. *)
Fixpoint spawned (evs : list Event) : list (string * list string) :=
  match evs with
  | [] => []
  | Spawn c a _ :: rest => (c, a) :: spawned rest
  | _ :: rest => spawned rest
  end.

(** A program that starts the processes [l], in this order, and no
    other. *)
Definition spawns {A} (l : list (string * list string)) (m : IO A) : Prop :=
  forall env w, exists new, trace (m env w).2 = trace w ++ new /\ spawned new = l.

(** A program that does nothing but print lines on the standard output. *)
Definition prints_only {A} (m : IO A) : Prop :=
  forall env w, exists lines, (m env w).2 = set_trace (trace w ++ map Stdout lines) w.

(** The addresses of the registries of the handlers the flags configure,
    in the order of the handlers. *)
Definition configured_registries (f : failhook.Flags) (a b c d : nat) : list nat :=
  (if String.eqb (failhook.command f) "" then [] else [a])
  ++ (if String.eqb (failhook.webhook f) "" then [] else [b])
  ++ (if String.eqb (failhook.syslogMsg f) "" then [] else [c])
  ++ (if String.eqb (failhook.slackWebhook f) "" then [] else [d]).

(** The flags with the debug mode set to [b]. *)
Definition with_debug (b : bool) (f : failhook.Flags) : failhook.Flags := {|
  failhook.command := failhook.command f;
  failhook.webhook := failhook.webhook f;
  failhook.syslogMsg := failhook.syslogMsg f;
  failhook.slackWebhook := failhook.slackWebhook f;
  failhook.slackMsg := failhook.slackMsg f;
  failhook.timeout := failhook.timeout f;
  failhook.debug := b;
  failhook.showUsage := failhook.showUsage f
|}.

(** A trace without what was printed on the standard output at its top
    level. *)
Fixpoint without_stdout (evs : list Event) : list Event :=
  match evs with
  | [] => []
  | Stdout _ :: rest => without_stdout rest
  | ev :: rest => ev :: without_stdout rest
  end.

(** Two worlds that differ in nothing but what was printed on the
    standard output. *)
Definition same_but_stdout (w w' : World) : Prop :=
  tick w = tick w' /\ heap w = heap w' /\ next w = next w' /\
  without_stdout (trace w) = without_stdout (trace w').

(** Two programs that, run in such worlds, return results related by [Q]
    and end in such worlds. *)
Definition alike {A B} (Q : A -> B -> Prop) (m : IO A) (m' : IO B) : Prop :=
  forall env w w', same_but_stdout w w' ->
    Q (m env w).1 (m' env w').1 /\ same_but_stdout (m env w).2 (m' env w').2.

(** ** The helper of the tests (handlers/placeholder_test.go) *)
Module handlers_test.

(** [s[i:j]]: the run-time check of the bounds included; [None] is the
    panic. *)
Definition slice (s : string) (i j : Z) : option string :=
  if (0 <=? i) && (i <=? j) && (j <=? len s)
  then Some (slice_to (slice_from s i) (j - i))
  else None.

(** [HasPrefix] is a helper function that checks if a string starts with
    a prefix. *)
Definition HasPrefix (s prefix : string) : option bool :=
  if len prefix <=? len s
  then sub ← slice s 0 (len prefix); Some (String.eqb sub prefix)
  else Some false.

End handlers_test.

(** *** JSON texts (RFC 8259), as far as the encoder writes them: objects
    whose members are strings, without insignificant white space. *)

Definition is_hex_digit (b : Z) : bool :=
  ((48 <=? b) && (b <=? 57)) || ((97 <=? b) && (b <=? 102)) || ((65 <=? b) && (b <=? 70)).

(** The characters of a string after its opening quotation mark: any
    byte but the quotation mark, the reverse solidus and the control
    characters, or an escape; then the closing quotation mark. The
    result is what follows the string. *)
Fixpoint json_string_tail (s : string) : option string :=
  match s with
  | "" => None
  | String c rest =>
    let b := byte_val c in
    if b =? 34 then Some rest
    else if b =? 92 then
      match rest with
      | "" => None
      | String e rest' =>
        let x := byte_val e in
        if (x =? 34) || (x =? 92) || (x =? 47) || (x =? 98) || (x =? 102)
           || (x =? 110) || (x =? 114) || (x =? 116)
        then json_string_tail rest'
        else if x =? 117 then
          match rest' with
          | String h1 (String h2 (String h3 (String h4 rest''))) =>
              if is_hex_digit (byte_val h1) && is_hex_digit (byte_val h2)
                 && is_hex_digit (byte_val h3) && is_hex_digit (byte_val h4)
              then json_string_tail rest''
              else None
          | _ => None
          end
        else None
      end
    else if b <? 32 then None
    else json_string_tail rest
  end.

Definition json_string (s : string) : option string :=
  match s with
  | "" => None
  | String c rest => if byte_val c =? 34 then json_string_tail rest else None
  end.

(** A member: a name, a colon, a value that is a string. *)
Definition json_member (s : string) : option string :=
  match json_string s with
  | Some (String c rest) => if byte_val c =? 58 then json_string rest else None
  | _ => None
  end.

(** What follows a member of an object: the closing brace, or a comma
    and the next member. *)
Fixpoint json_members (fuel : nat) (s : string) : bool :=
  match fuel with
  | O => false
  | S fuel' =>
    match s with
    | "" => false
    | String c rest =>
      if byte_val c =? 125 then String.eqb rest ""
      else if byte_val c =? 44 then
        match json_member rest with
        | Some rest' => json_members fuel' rest'
        | None => false
        end
      else false
    end
  end.

Definition json_object (s : string) : bool :=
  match s with
  | "" => false
  | String c rest =>
    if byte_val c =? 123 then
      match rest with
      | "" => false
      | String c' rest' =>
        if byte_val c' =? 125 then String.eqb rest' ""
        else match json_member rest with
             | Some rest'' => json_members (String.length s) rest''
             | None => false
             end
      end
    else false
  end.

(** What follows the first member in the text of an object with the
    further members [ms]. *)
Fixpoint members_tail (ms : list string) : string :=
  match ms with
  | [] => "}"
  | m :: ms' => "," +:+ m +:+ members_tail ms'
  end.

(** The options of [NewSlackHandler] the package offers, and the
    functions they stand for. *)
Inductive SlackOption :=
| ChannelOption (channel : string)
| UsernameOption (username : string).

Definition option_func (o : SlackOption) : handlers.SlackHandler -> handlers.SlackHandler :=
  match o with
  | ChannelOption channel => handlers.WithChannel channel
  | UsernameOption username => handlers.WithUsername username
  end.

(** The channel and the user name that hold after the options [os],
    starting from [channel] and [username]. *)
Fixpoint last_channel (os : list SlackOption) (channel : string) : string :=
  match os with
  | [] => channel
  | ChannelOption c :: os' => last_channel os' c
  | UsernameOption _ :: os' => last_channel os' channel
  end.

Fixpoint last_username (os : list SlackOption) (username : string) : string :=
  match os with
  | [] => username
  | ChannelOption _ :: os' => last_username os' username
  | UsernameOption u :: os' => last_username os' u
  end.


(** A command that printed on both streams and failed. *)
Definition noisy_failure : ProcessResult := {|
  proc_stdout := "  out" +:+ nl; proc_stderr := "err " +:+ nl;
  proc_err := Some (ExitError (WaitStatus (Z.shiftl 1 8)) "exit status 1")
|}.

(** * Verification *)

Import handlers failhook.

(** ** Byte strings *)
Lemma append_cons c a b : String c a +:+ b = String c (a +:+ b).
Proof. reflexivity. Qed.
Lemma append_nil_l a : "" +:+ a = a.
Proof. reflexivity. Qed.

Lemma append_assoc' (a b c : string) : (a +:+ b) +:+ c = a +:+ b +:+ c.
Proof. induction a as [|x a IH]; [reflexivity|]. by rewrite !append_cons, IH. Qed.

Lemma length_append' a b : String.length (a +:+ b) = (String.length a + String.length b)%nat.
Proof. induction a as [|x a IH]; [reflexivity|]. rewrite append_cons. simpl. by rewrite IH. Qed.

Lemma take_drop_n n s : take_n n s +:+ drop_n n s = s.
Proof. revert s; induction n; intros [|c s]; simpl; try reflexivity. rewrite append_cons. by rewrite IHn. Qed.

Lemma prefix_split p s : String.prefix p s = true -> s = p +:+ drop_n (String.length p) s.
Proof.
  revert s; induction p as [|c p IH]; intros s H; [reflexivity|].
  destruct s as [|d s]; [discriminate|]. simpl in *.
  destruct (ascii_dec c d); [subst|discriminate]. rewrite append_cons. f_equal. auto.
Qed.

Lemma Index_eq s p :
  go_strings.Index s p =
  if String.prefix p s then 0
  else match s with
       | "" => -1
       | String _ s' =>
           if go_strings.Index s' p =? -1 then -1 else go_strings.Index s' p + 1
       end.
Proof. destruct s; reflexivity. Qed.

Lemma Index_ge s p : -1 <= go_strings.Index s p.
Proof.
  induction s as [|c s IH]; rewrite Index_eq.
  - destruct (String.prefix p ""); lia.
  - destruct (String.prefix p (String c s)); [lia|].
    destruct (Z.eqb_spec (go_strings.Index s p) (-1)); lia.
Qed.

Lemma Index_split s p j :
  go_strings.Index s p = j -> j <> -1 ->
  0 <= j /\ s = slice_to s j +:+ p +:+ slice_from s (j + len p).
Proof.
  revert j; induction s as [|c s IH]; intros j Hj Hne; rewrite Index_eq in Hj.
  - destruct (String.prefix p "") eqn:Hp; [|lia]. subst j. split; [lia|].
    destruct p; [reflexivity|discriminate].
  - destruct (String.prefix p (String c s)) eqn:Hp.
    + subst j. split; [lia|]. unfold slice_to, slice_from. simpl take_n.
      rewrite append_nil_l, Z.add_0_l. unfold len. rewrite Nat2Z.id.
      by apply prefix_split.
    + destruct (Z.eqb_spec (go_strings.Index s p) (-1)) as [|Hn]; [lia|].
      destruct (IH _ eq_refl Hn) as [H0 Hs]. subst j. split; [lia|].
      unfold slice_to, slice_from in *.
      replace (Z.to_nat (go_strings.Index s p + 1)) with (S (Z.to_nat (go_strings.Index s p))) by lia.
      replace (Z.to_nat (go_strings.Index s p + 1 + len p)) with (S (Z.to_nat (go_strings.Index s p + len p))) by (unfold len; lia).
      simpl. rewrite append_cons. f_equal. exact Hs.
Qed.

Lemma Contains_false_Index s p : go_strings.Contains s p = false -> go_strings.Index s p = -1.
Proof. unfold go_strings.Contains. intros H. pose proof (Index_ge s p). apply Z.leb_gt in H. lia. Qed.

Lemma Index_empty s : go_strings.Index s "" = 0.
Proof. destruct s; reflexivity. Qed.

Lemma len_0 s : len s = 0 -> s = "".
Proof. destruct s; [reflexivity|unfold len; simpl; lia]. Qed.

(** A text without the token is returned as it is. *)
Lemma Replace_absent s old new n :
  go_strings.Contains s old = false -> go_strings.Replace s old new n = s.
Proof.
  intros H. apply Contains_false_Index in H. unfold go_strings.Replace.
  destruct (String.eqb old new || (n =? 0)); [reflexivity|].
  unfold go_strings.Count.
  destruct (Z.eqb_spec (len old) 0) as [H0|H0].
  - apply len_0 in H0. subst. rewrite Index_empty in H. lia.
  - simpl. rewrite H. reflexivity.
Qed.

Lemma Join_cons a segs sep :
  segs <> [] -> go_strings.Join (a :: segs) sep = a +:+ sep +:+ go_strings.Join segs sep.
Proof. destruct segs; [congruence|reflexivity]. Qed.

Lemma count_loop_acc fuel s p n :
  go_strings.count_loop fuel s p n = n + go_strings.count_loop fuel s p 0.
Proof.
  revert s n; induction fuel as [|fuel IH]; intros s n; simpl; [lia|].
  destruct (go_strings.Index s p =? -1); [lia|].
  rewrite (IH _ (n + 1)), (IH _ (0 + 1)). lia.
Qed.

Lemma count_loop_nonneg fuel s p : 0 <= go_strings.count_loop fuel s p 0.
Proof.
  revert s; induction fuel as [|fuel IH]; intros s; simpl; [lia|].
  destruct (go_strings.Index s p =? -1); [lia|].
  rewrite count_loop_acc. specialize (IH (slice_from s (go_strings.Index s p + len p))). lia.
Qed.

Lemma rune_count_nonneg fuel s : 0 <= go_utf8.rune_count fuel s.
Proof.
  revert s; induction fuel as [|fuel IH]; intros s; simpl; [lia|].
  destruct s; [lia|]. 
  match goal with |- 0 <= 1 + go_utf8.rune_count fuel ?x => specialize (IH x) end. lia.
Qed.

Lemma replace_loop_S r i rest old new :
  go_strings.replace_loop (S r) i rest old new =
  slice_to rest (if len old =? 0
                 then (if 0 <? i then (go_utf8.DecodeRuneInString rest).2 else 0)
                 else go_strings.Index rest old) +:+ new +:+
  go_strings.replace_loop r (i + 1)
    (slice_from rest ((if len old =? 0
                       then (if 0 <? i then (go_utf8.DecodeRuneInString rest).2 else 0)
                       else go_strings.Index rest old) + len old)) old new.
Proof. reflexivity. Qed.

Lemma replace_loop_segments_nonempty old new r : forall fuel i rest,
  len old <> 0 ->
  Z.of_nat r <= go_strings.count_loop fuel rest old 0 ->
  exists segs, length segs = S r /\ rest = go_strings.Join segs old /\
               go_strings.replace_loop r i rest old new = go_strings.Join segs new.
Proof.
  induction r as [|r IH]; intros fuel i rest Hold Hr.
  - exists [rest]. auto.
  - destruct fuel as [|fuel]; [simpl in Hr; lia|].
    simpl in Hr. destruct (Z.eqb_spec (go_strings.Index rest old) (-1)) as [|Hj]; [lia|].
    rewrite count_loop_acc in Hr.
    destruct (Index_split rest old _ eq_refl Hj) as [Hj0 Hsplit].
    destruct (IH fuel (i + 1) (slice_from rest (go_strings.Index rest old + len old)) Hold)
      as (segs & Hlen & Hrest & Hres); [lia|].
    exists (slice_to rest (go_strings.Index rest old) :: segs).
    assert (segs <> []) by (destruct segs; [discriminate|congruence]).
    split; [simpl; congruence|]. rewrite !Join_cons by done. split.
    + rewrite <- Hrest. exact Hsplit.
    + rewrite replace_loop_S. destruct (Z.eqb_spec (len old) 0); [lia|]. by rewrite Hres.
Qed.

Lemma replace_loop_segments_empty new r : forall fuel i rest,
  0 < i ->
  Z.of_nat r <= go_utf8.rune_count fuel rest ->
  exists segs, length segs = S r /\ rest = go_strings.Join segs "" /\
               go_strings.replace_loop r i rest "" new = go_strings.Join segs new.
Proof.
  induction r as [|r IH]; intros fuel i rest Hi Hr.
  - exists [rest]. auto.
  - destruct fuel as [|fuel]; [simpl in Hr; lia|].
    simpl in Hr. destruct rest as [|c rest]; [lia|].
    set (s := String c rest) in *.
    set (w := (go_utf8.DecodeRuneInString s).2) in *.
    destruct (IH fuel (i + 1) (slice_from s w)) as (segs & Hlen & Hrest & Hres); [lia..|].
    exists (slice_to s w :: segs).
    assert (segs <> []) by (destruct segs; [discriminate|congruence]).
    split; [simpl; congruence|]. rewrite !Join_cons by done. split.
    + rewrite <- Hrest, append_nil_l. symmetry. apply take_drop_n.
    + rewrite replace_loop_S. change (len "" =? 0) with true. cbv iota.
      destruct (Z.ltb_spec 0 i); [|lia]. fold w.
      change (len "") with 0. rewrite Z.add_0_r. by rewrite Hres.
Qed.

(** A replacement splits the text at the occurrences of the token and
    copies the pieces between them unchanged. *)
Lemma Replace_segments s old new n :
  exists segs, s = go_strings.Join segs old /\
               go_strings.Replace s old new n = go_strings.Join segs new.
Proof.
  unfold go_strings.Replace.
  destruct (String.eqb old new || (n =? 0)); [by exists [s]|].
  destruct (Z.eqb_spec (go_strings.Count s old) 0) as [|Hm]; [by exists [s]|].
  set (m := go_strings.Count s old) in *.
  set (n' := if (n <? 0) || (m <? n) then m else n).
  assert (Hn' : Z.of_nat (Z.to_nat n') <= m /\ 0 <= m).
  { assert (0 <= m).
    { unfold m, go_strings.Count. destruct (len old =? 0).
      - pose proof (rune_count_nonneg (String.length s) s).
        unfold go_utf8.RuneCountInString. lia.
      - apply count_loop_nonneg. }
    unfold n'. destruct (Z.ltb_spec n 0), (Z.ltb_spec m n); simpl; lia. }
  destruct Hn' as [Hn' Hm0]. revert Hn'. generalize (Z.to_nat n') as r. intros r Hr.
  unfold m, go_strings.Count in Hr.
  destruct (Z.eqb_spec (len old) 0) as [H0|H0].
  - apply len_0 in H0. subst old.
    destruct r as [|r]; [by exists [s]|].
    destruct (replace_loop_segments_empty new r (String.length s) 1 s)
      as (segs & Hlen & Hrest & Hres); [lia| unfold go_utf8.RuneCountInString in Hr; lia |].
    exists ("" :: segs).
    assert (segs <> []) by (destruct segs; [discriminate|congruence]).
    rewrite !Join_cons by done. split; [by rewrite !append_nil_l|].
    rewrite replace_loop_S. change (len "" =? 0) with true. cbv iota.
    change (0 <? 0) with false. cbv iota.
    change (slice_to s 0) with "". change (slice_from s (0 + len "")) with s.
    change (0 + 1) with 1. by rewrite Hres.
  - destruct (replace_loop_segments_nonempty old new r (S (String.length s)) 0 s H0 Hr)
      as (segs & _ & Hrest & Hres).
    by exists segs.
Qed.

(** ** The library models on the examples of their documentation *)

Example Replace_examples :
  go_strings.Replace "oink oink oink" "k" "ky" 2 = "oinky oinky oink" /\
  go_strings.Replace "oink oink oink" "oink" "moo" (-1) = "moo moo moo" /\
  go_strings.Replace "abc" "" "X" (-1) = "XaXbXcX" /\
  go_strings.Replace "aaaa" "aa" "b" (-1) = "bb".
Proof. repeat split; vm_compute; reflexivity. Qed.

Example Index_Count_examples :
  go_strings.Index "chicken" "ken" = 4 /\ go_strings.Index "chicken" "dmr" = -1 /\
  go_strings.Count "cheese" "e" = 3 /\ go_strings.Count "five" "" = 5.
Proof. repeat split; vm_compute; reflexivity. Qed.

Example TrimSpace_examples :
  go_strings.TrimSpace (" " +:+ String "009" (nl +:+ " Hello, Gophers " +:+ nl
                        +:+ String "009" (String "013" nl)))
  = "Hello, Gophers" /\
  go_strings.TrimSpace (String (byte_chr 194) (String (byte_chr 160) " a b "
                        +:+ String (byte_chr 226) (String (byte_chr 128)
                              (String (byte_chr 131) nl))))
  = "a b" /\
  go_strings.TrimSpace (" " +:+ nl) = "".
Proof. repeat split; vm_compute; reflexivity. Qed.

Example QueryEscape_example :
  go_url.QueryEscape "my/cool+blog&about,stuff" = "my%2Fcool%2Bblog%26about%2Cstuff".
Proof. vm_compute. reflexivity. Qed.

Example appendString_example :
  go_json.appendString ("a<b" +:+ dq +:+ nl +:+ "\") =
  dq +:+ "a\u003cb\" +:+ dq +:+ "\n\\" +:+ dq.
Proof. vm_compute. reflexivity. Qed.

(** ** The loops run to their natural end

    The loops of the library models that are bounded by a count of rounds
    leave by their own exit test before the count is used up: any larger
    count gives the same result. *)

Lemma length_drop_n n s : String.length (drop_n n s) = (String.length s - n)%nat.
Proof. revert s; induction n; intros [|c s]; simpl; auto. Qed.

Lemma DecodeRune_width s :
  s <> "" -> 1 <= (go_utf8.DecodeRuneInString s).2 <= 4.
Proof.
  intros Hs. destruct s as [|c0 t0]; [done|]. unfold go_utf8.DecodeRuneInString.
  repeat match goal with
         | |- context [if ?b then _ else _] => destruct b
         | |- context [match ?t with "" => _ | String _ _ => _ end] => destruct t
         end; cbn [snd]; lia.
Qed.

Lemma rune_count_fuel f1 : forall f2 s,
  (String.length s <= f1)%nat -> (String.length s <= f2)%nat ->
  go_utf8.rune_count f1 s = go_utf8.rune_count f2 s.
Proof.
  induction f1 as [|f1 IH]; intros f2 s H1 H2.
  - destruct s; [|simpl in H1; lia]. by destruct f2.
  - destruct f2 as [|f2]; [destruct s; [reflexivity|simpl in H2; lia]|].
    destruct s as [|c s]; [reflexivity|]. cbn [go_utf8.rune_count]. f_equal.
    pose proof (DecodeRune_width (String c s) ltac:(done)) as Hw.
    apply IH; unfold slice_from; rewrite length_drop_n; simpl in *; lia.
Qed.

Lemma Index_found_length s old :
  go_strings.Index s old <> -1 ->
  (String.length (slice_from s (go_strings.Index s old + len old)) + String.length old
   <= String.length s)%nat.
Proof.
  intros H. destruct (Index_split s old _ eq_refl H) as [H0 Hs].
  rewrite Hs at 3. rewrite !length_append'. lia.
Qed.

Lemma count_loop_fuel old f1 : forall f2 s n,
  len old <> 0 ->
  (String.length s < f1)%nat -> (String.length s < f2)%nat ->
  go_strings.count_loop f1 s old n = go_strings.count_loop f2 s old n.
Proof.
  induction f1 as [|f1 IH]; intros f2 s n Hold H1 H2; [lia|].
  destruct f2 as [|f2]; [lia|]. cbn [go_strings.count_loop].
  destruct (Z.eqb_spec (go_strings.Index s old) (-1)) as [|Hi]; [reflexivity|].
  pose proof (Index_found_length s old Hi) as Hl.
  assert (String.length old <> 0)%nat by (unfold len in Hold; lia).
  apply IH; [done|lia..].
Qed.

Lemma string_body_fuel f1 : forall f2 src,
  (String.length src <= f1)%nat -> (String.length src <= f2)%nat ->
  go_json.string_body f1 src = go_json.string_body f2 src.
Proof.
  induction f1 as [|f1 IH]; intros f2 src H1 H2.
  - destruct src; [|simpl in H1; lia]. by destruct f2.
  - destruct f2 as [|f2]; [destruct src; [reflexivity|simpl in H2; lia]|].
    destruct src as [|ch rest]; [reflexivity|]. cbn [go_json.string_body].
    pose proof (DecodeRune_width (String ch rest) ltac:(done)) as Hw.
    assert (Hr : forall size, 1 <= size ->
              go_json.string_body f1 (slice_from (String ch rest) size)
              = go_json.string_body f2 (slice_from (String ch rest) size)).
    { intros size Hsize. apply IH; unfold slice_from; rewrite length_drop_n;
        simpl in *; lia. }
    destruct (byte_val ch <? go_utf8.RuneSelf).
    + f_equal. apply IH; simpl in *; lia.
    + destruct (go_utf8.DecodeRuneInString (String ch rest)) as [c size]. cbn [snd] in Hw.
      repeat match goal with |- context [if ?b then _ else _] => destruct b end;
        rewrite Hr by lia; reflexivity.
Qed.

Lemma trim_start_fuel s f1 : forall f2 start,
  len s - start <= Z.of_nat f1 -> len s - start <= Z.of_nat f2 ->
  go_strings.trim_start f1 s start = go_strings.trim_start f2 s start.
Proof.
  induction f1 as [|f1 IH]; intros f2 start H1 H2.
  - destruct f2 as [|f2]; [reflexivity|]. cbn [go_strings.trim_start].
    destruct (Z.leb_spec (len s) start); [reflexivity|lia].
  - destruct f2 as [|f2]; cbn [go_strings.trim_start].
    + destruct (Z.leb_spec (len s) start); [reflexivity|lia].
    + destruct (Z.leb_spec (len s) start); [reflexivity|].
      repeat match goal with |- context [if ?b then _ else _] => destruct b end;
        try reflexivity.
      apply IH; lia.
Qed.

Lemma trim_stop_fuel s start f1 : forall f2 stop,
  stop - start <= Z.of_nat f1 -> stop - start <= Z.of_nat f2 ->
  go_strings.trim_stop f1 s start stop = go_strings.trim_stop f2 s start stop.
Proof.
  induction f1 as [|f1 IH]; intros f2 stop H1 H2.
  - destruct f2 as [|f2]; [reflexivity|]. cbn [go_strings.trim_stop].
    destruct (Z.leb_spec stop start); [reflexivity|lia].
  - destruct f2 as [|f2]; cbn [go_strings.trim_stop].
    + destruct (Z.leb_spec stop start); [reflexivity|lia].
    + destruct (Z.leb_spec stop start); [reflexivity|].
      repeat match goal with |- context [if ?b then _ else _] => destruct b end;
        try reflexivity.
      apply IH; lia.
Qed.

Lemma slice_from_nonempty s i : 0 <= i < len s -> slice_from s i <> "".
Proof.
  intros Hi Hs. assert (String.length (slice_from s i) = 0%nat) by (by rewrite Hs).
  unfold slice_from, len in *. rewrite length_drop_n in *. lia.
Qed.

Lemma indexFunc_loop_fuel s f truth f1 : forall f2 i,
  0 <= i ->
  len s - i <= Z.of_nat f1 -> len s - i <= Z.of_nat f2 ->
  go_strings.indexFunc_loop f1 s f truth i = go_strings.indexFunc_loop f2 s f truth i.
Proof.
  induction f1 as [|f1 IH]; intros f2 i H0 H1 H2.
  - destruct f2 as [|f2]; [reflexivity|]. cbn [go_strings.indexFunc_loop].
    destruct (Z.leb_spec (len s) i); [reflexivity|lia].
  - destruct f2 as [|f2]; cbn [go_strings.indexFunc_loop].
    + destruct (Z.leb_spec (len s) i); [reflexivity|lia].
    + destruct (Z.leb_spec (len s) i); [reflexivity|].
      pose proof (DecodeRune_width (slice_from s i) (slice_from_nonempty s i ltac:(lia))) as Hw.
      destruct (go_utf8.DecodeRuneInString (slice_from s i)) as [r w]. cbn [snd] in Hw.
      destruct (Bool.eqb (f r) truth); [reflexivity|]. apply IH; lia.
Qed.

Lemma rev_string_onto_nonempty s acc : acc <> "" -> rev_string_onto s acc <> "".
Proof. revert acc; induction s as [|c s IH]; intros acc H; [done|]. simpl. by apply IH. Qed.

Lemma last_start_ge fuel rs k : k <= go_utf8.last_start fuel rs k.
Proof.
  revert rs k; induction fuel as [|fuel IH]; intros [|c rs] k; simpl; try lia.
  destruct (go_utf8.RuneStart _); [lia|]. specialize (IH rs (k + 1)). lia.
Qed.

Lemma DecodeLastRune_width s :
  s <> "" -> 1 <= (go_utf8.DecodeLastRuneInString s).2.
Proof.
  intros Hs. unfold go_utf8.DecodeLastRuneInString.
  destruct (rev_string s) as [|c rs] eqn:E.
  { destruct s as [|c s]; [done|]. unfold rev_string in E. simpl in E.
    by apply rev_string_onto_nonempty in E. }
  destruct (byte_val c <? go_utf8.RuneSelf); [simpl; lia|].
  pose proof (last_start_ge 3 rs 1) as Hb.
  destruct (go_utf8.DecodeRuneInString _) as [r size].
  destruct (Z.eqb_spec size (go_utf8.last_start 3 rs 1)); simpl; lia.
Qed.

Lemma slice_to_nonempty s i : 0 < i -> s <> "" -> slice_to s i <> "".
Proof.
  intros Hi Hs. unfold slice_to. destruct (Z.to_nat i) eqn:E; [lia|].
  by destruct s.
Qed.

Lemma lastIndexFunc_loop_fuel s f truth f1 : forall f2 i,
  i <= len s ->
  i <= Z.of_nat f1 -> i <= Z.of_nat f2 ->
  go_strings.lastIndexFunc_loop f1 s f truth i
  = go_strings.lastIndexFunc_loop f2 s f truth i.
Proof.
  induction f1 as [|f1 IH]; intros f2 i Hi H1 H2.
  - destruct f2 as [|f2]; [reflexivity|]. cbn [go_strings.lastIndexFunc_loop].
    destruct (Z.leb_spec i 0); [reflexivity|lia].
  - destruct f2 as [|f2]; cbn [go_strings.lastIndexFunc_loop].
    + destruct (Z.leb_spec i 0); [reflexivity|lia].
    + destruct (Z.leb_spec i 0); [reflexivity|].
      assert (s <> "") by (intros ->; unfold len in Hi; simpl in Hi; lia).
      pose proof (DecodeLastRune_width (slice_to s i)
                    (slice_to_nonempty _ i ltac:(lia) ltac:(done))) as Hw.
      destruct (go_utf8.DecodeLastRuneInString _) as [r size]. cbn [snd] in Hw.
      destruct (Bool.eqb (f r) truth); [reflexivity|]. apply IH; lia.
Qed.

(** Hence the counts of rounds the models start their loops with are
    enough. *)
Lemma Count_fuel s substr fuel :
  len substr <> 0 -> (String.length s < fuel)%nat ->
  go_strings.count_loop fuel s substr 0 = go_strings.Count s substr.
Proof.
  intros Hs Hf. unfold go_strings.Count.
  destruct (Z.eqb_spec (len substr) 0); [done|]. apply count_loop_fuel; [done|lia..].
Qed.

Lemma RuneCountInString_fuel s fuel :
  (String.length s <= fuel)%nat ->
  go_utf8.rune_count fuel s = go_utf8.RuneCountInString s.
Proof. intros Hf. apply rune_count_fuel; lia. Qed.

Lemma appendString_fuel src fuel :
  (String.length src <= fuel)%nat ->
  dq +:+ go_json.string_body fuel src +:+ dq = go_json.appendString src.
Proof.
  intros Hf. unfold go_json.appendString. do 2 f_equal. apply string_body_fuel; lia.
Qed.

Lemma TrimSpace_fuel s fuel :
  (String.length s <= fuel)%nat ->
  go_strings.trim_start fuel s 0 = go_strings.trim_start (String.length s) s 0 /\
  (forall start, 0 <= start ->
     go_strings.trim_stop fuel s start (len s)
     = go_strings.trim_stop (String.length s) s start (len s)) /\
  (forall f truth,
     go_strings.indexFunc_loop fuel s f truth 0 = go_strings.indexFunc s f truth) /\
  (forall f truth,
     go_strings.lastIndexFunc_loop fuel s f truth (len s)
     = go_strings.lastIndexFunc s f truth).
Proof.
  intros Hf. unfold len. repeat split.
  - apply trim_start_fuel; unfold len; lia.
  - intros start Hs. apply trim_stop_fuel; lia.
  - intros f truth. apply indexFunc_loop_fuel; unfold len; lia.
  - intros f truth. apply lastIndexFunc_loop_fuel; unfold len; lia.
Qed.

(** ** Orders of visit *)

Lemma pick_order_perm {A} (choice : nat -> nat) (l : list A) :
  pick_order (length l) choice l ≡ₚ l.
Proof.
  remember (length l) as n eqn:Hn. revert l Hn.
  induction n as [|n IH]; intros l Hn.
  - destruct l; [reflexivity|discriminate].
  - simpl. set (i := (choice (S n) `mod` length l)%nat).
    assert (Hi : (i < length l)%nat).
    { unfold i. apply Nat.mod_upper_bound. lia. }
    destruct (lookup_lt_is_Some_2 l i Hi) as [x Hx]. rewrite Hx.
    etrans; [|symmetry; exact (delete_Permutation l i x Hx)]. constructor.
    apply IH. rewrite length_delete by eauto. lia.
Qed.

Lemma pick_order_ext {A} k (choice choice' : nat -> nat) (d : list A) :
  (forall n, (1 <= n <= k)%nat -> choice n = choice' n) ->
  pick_order k choice d = pick_order k choice' d.
Proof.
  revert d; induction k as [|k IH]; intros d H; [reflexivity|]. simpl.
  rewrite (H (S k)) by lia. destruct (d !! _); [|reflexivity].
  f_equal. apply IH. intros n Hn. apply H. lia.
Qed.

(** Every order of visiting the entries is the choice of some environment. *)
Lemma pick_order_complete {A} (l l' : list A) :
  l' ≡ₚ l -> exists choice, pick_order (length l) choice l = l'.
Proof.
  revert l. induction l' as [|x l' IH]; intros l Hp.
  - apply Permutation_nil_l in Hp. subst. by exists (fun _ => 0%nat).
  - assert (Hx : x ∈ l) by (rewrite <- Hp; left).
    apply list_elem_of_lookup in Hx as [i Hi].
    assert (Hd : l' ≡ₚ delete i l).
    { apply (Permutation_cons_inv (a := x)). rewrite Hp. by apply delete_Permutation. }
    destruct (IH _ Hd) as [choice Hc].
    pose proof (lookup_lt_Some _ _ _ Hi) as Hlt.
    exists (fun n => if decide (n = length l) then i else choice n).
    destruct l as [|y l]; [simpl in Hlt; lia|].
    change (length (y :: l)) with (S (length l)) in *. cbn [pick_order].
    rewrite decide_True by done. rewrite Nat.mod_small by done. rewrite Hi. f_equal.
    rewrite <- Hc. rewrite length_delete by eauto.
    change (length (y :: l) - 1)%nat with (length l - 0)%nat. rewrite Nat.sub_0_r.
    apply pick_order_ext. intros n Hn. rewrite decide_False by lia. reflexivity.
Qed.

(** ** Running programs *)

Lemma bind_run {A B} (m : IO A) (k : A -> IO B) env w :
  (m ≫= k) env w = k (m env w).1 env (m env w).2.
Proof. unfold mbind, IO_bind. destruct (m env w); reflexivity. Qed.

Lemma set_tick_id w n : n = tick w -> set_tick n w = w.
Proof. intros ->. by destruct w. Qed.

Lemma subst_loop (enc : string -> string) env e o entries : forall text w,
  for_range_acc entries text (fun result '(p, fn) =>
    now ← read_clock;
    mret (go_strings.Replace result p (enc (fn now e o)) (-1))) env w
  = (substitute enc (values env (tick w) e o entries) text,
     set_tick (tick w + length entries) w).
Proof.
  induction entries as [|[p fn] entries IH]; intros text w.
  - simpl. unfold mret, IO_ret. f_equal. symmetry. apply set_tick_id. simpl. lia.
  - cbn [for_range_acc]. rewrite bind_run. rewrite bind_run. cbn [read_clock fst snd].
    unfold mret at 1, IO_ret at 1. cbn [fst snd]. rewrite IH. cbn [values substitute fold_left].
    f_equal. destruct w; unfold set_tick; simpl. f_equal. lia.
Qed.

Lemma Replace_run pr text e o env w :
  Replace pr text e o env w
  = (substitute id (values env (S (tick w)) e o (visit_order env w pr)) text,
     set_tick (S (tick w) + length (visit_order env w pr)) w).
Proof.
  unfold Replace. rewrite !bind_run. cbn [load fst snd].
  unfold range_map. rewrite bind_run. cbn [ask fst snd]. unfold mret at 1, IO_ret at 1.
  cbn [fst snd]. 
  exact (subst_loop id env e o _ text _).
Qed.

Lemma ReplaceURLEncoded_run pr text e o env w :
  ReplaceURLEncoded pr text e o env w
  = (substitute go_url.QueryEscape (values env (S (tick w)) e o (visit_order env w pr)) text,
     set_tick (S (tick w) + length (visit_order env w pr)) w).
Proof.
  unfold ReplaceURLEncoded. rewrite !bind_run. cbn [load fst snd].
  unfold range_map. rewrite bind_run. cbn [ask fst snd]. unfold mret at 1, IO_ret at 1.
  cbn [fst snd]. 
  exact (subst_loop go_url.QueryEscape env e o _ text _).
Qed.

(** ** Substitution passes *)

Lemma substitute_absent enc steps text :
  (forall p v, (p, v) ∈ steps -> go_strings.Contains text p = false) ->
  substitute enc steps text = text.
Proof.
  induction steps as [|[p v] steps IH]; intros H; [reflexivity|].
  cbn [substitute fold_left]. rewrite Replace_absent by (eapply H; left).
  apply IH. intros q u Hq. eapply H. right. exact Hq.
Qed.

Lemma values_tokens env t e o entries p v :
  (p, v) ∈ values env t e o entries -> exists fn, (p, fn) ∈ entries.
Proof.
  revert t; induction entries as [|[q fn] entries IH]; intros t H; simpl in H.
  - by apply elem_of_nil in H.
  - apply elem_of_cons in H as [H|H].
    + inversion H; subst. exists fn. left.
    + destruct (IH _ H) as [fn' Hfn]. exists fn'. by right.
Qed.

Lemma visit_order_registered env w pr p fn :
  (p, fn) ∈ visit_order env w pr -> placeholders (heap w !!! pr) !! p = Some fn.
Proof.
  unfold visit_order. rewrite pick_order_perm. apply elem_of_map_to_list.
Qed.

Lemma visit_order_visits env w pr p fn :
  placeholders (heap w !!! pr) !! p = Some fn -> (p, fn) ∈ visit_order env w pr.
Proof.
  unfold visit_order. rewrite pick_order_perm. apply elem_of_map_to_list.
Qed.

Lemma values_inv env t e o entries p v :
  (p, v) ∈ values env t e o entries ->
  exists fn now, (p, fn) ∈ entries /\ v = fn now e o.
Proof.
  revert t; induction entries as [|[q fn] entries IH]; intros t H; simpl in H.
  - by apply elem_of_nil in H.
  - apply elem_of_cons in H as [H|H].
    + inversion H; subst. eexists fn, _. split; [left|reflexivity].
    + destruct (IH _ H) as (fn' & now & Hfn & Hv). exists fn', now. split; [by right|done].
Qed.

Lemma values_visits env t e o entries p fn :
  (p, fn) ∈ entries -> exists v, (p, v) ∈ values env t e o entries.
Proof.
  revert t; induction entries as [|[q fn'] entries IH]; intros t H.
  - by apply elem_of_nil in H.
  - simpl. apply elem_of_cons in H as [H|H].
    + inversion H; subst. eexists. left.
    + destruct (IH (S t) H) as [v Hv]. exists v. by right.
Qed.

Lemma Register_run pr p fn env w :
  Register pr p fn env w =
  (tt, set_heap (<[pr := {| placeholders := <[p := fn]> (placeholders (heap w !!! pr)) |}]> (heap w)) w).
Proof. reflexivity. Qed.

Lemma NewPlaceholderRegistry_run env w :
  NewPlaceholderRegistry env w =
  (next w, set_next (S (next w))
             (set_heap (<[next w := {| placeholders := builtin_placeholders |}]> (heap w)) w)).
Proof.
  unfold NewPlaceholderRegistry. rewrite !bind_run. rewrite !Register_run.
  cbn [alloc fst snd]. unfold mret, IO_ret.
  f_equal. destruct w as [tr tk hp nx]; unfold set_heap, set_next; cbn.
  f_equal. rewrite !lookup_total_insert_eq. cbn [placeholders].
  rewrite !insert_insert_eq. reflexivity.
Qed.

Lemma builtin_lookup p fn :
  builtin_placeholders !! p = Some fn ->
  (p = "__STATUS_CODE__" /\ fn = (fun _ exitCode _ => pretty exitCode)) \/
  (p = "__OUTPUT__" /\ fn = (fun _ _ output => output)) \/
  (p = "__TIMESTAMP__" /\ fn = (fun now _ _ => now "2006-01-02T15:04:05Z07:00")) \/
  (p = "__DATE__" /\ fn = (fun now _ _ => now "2006-01-02")) \/
  (p = "__TIME__" /\ fn = (fun now _ _ => now "15:04:05")).
Proof.
  unfold builtin_placeholders. rewrite !lookup_insert_Some, lookup_empty.
  intuition (subst; auto 10; discriminate).
Qed.

Lemma all_chars_append P a b : all_chars P (a +:+ b) = all_chars P a && all_chars P b.
Proof.
  induction a as [|c a IH]; [reflexivity|]. rewrite append_cons. simpl.
  by rewrite IH, andb_assoc.
Qed.

Lemma escape_byte_safe ch : all_chars url_safe (go_url.escape_byte ch) = true.
Proof. destruct ch as [[] [] [] [] [] [] [] []]; vm_compute; reflexivity. Qed.

Lemma QueryEscape_safe v : all_chars url_safe (go_url.QueryEscape v) = true.
Proof.
  induction v as [|ch v IH]; [reflexivity|]. simpl.
  by rewrite all_chars_append, escape_byte_safe, IH.
Qed.

Lemma substitute_single enc steps p0 v0 B : forall A,
  (forall p v, (p, v) ∈ steps -> p <> p0 ->
     go_strings.Contains A p = false /\ go_strings.Contains B p = false) ->
  (forall v, (p0, v) ∈ steps -> v = v0) ->
  (exists v, (p0, v) ∈ steps) ->
  go_strings.Replace A p0 (enc v0) (-1) = B ->
  go_strings.Contains B p0 = false ->
  substitute enc steps A = B.
Proof.
  induction steps as [|[p v] steps IH]; intros A Hother Hp0 [v' Hv'] HAB HB.
  - by apply elem_of_nil in Hv'.
  - cbn [substitute fold_left]. destruct (decide (p = p0)) as [->|Hne].
    + rewrite (Hp0 v) by left. rewrite HAB. apply substitute_absent.
      intros q u Hq. destruct (decide (q = p0)) as [->|Hq0]; [done|].
      eapply (Hother q u); [right; exact Hq|done].
    + rewrite Replace_absent by (eapply (Hother p v); [left|done]).
      apply IH; try done.
      * intros q u Hq. apply (Hother q u). by right.
      * intros u Hu. apply Hp0. by right.
      * apply elem_of_cons in Hv' as [Hv'|Hv']; [congruence|eauto].
Qed.

(** With the built-in registry, a text whose only token is [__OUTPUT__]. *)
Lemma substitute_output enc env t e o entries A B :
  (forall p fn, (p, fn) ∈ entries <-> builtin_placeholders !! p = Some fn) ->
  Forall (fun p => go_strings.Contains A p = false /\ go_strings.Contains B p = false)
         ["__STATUS_CODE__"; "__TIMESTAMP__"; "__DATE__"; "__TIME__"] ->
  go_strings.Replace A "__OUTPUT__" (enc o) (-1) = B ->
  go_strings.Contains B "__OUTPUT__" = false ->
  substitute enc (values env t e o entries) A = B.
Proof.
  intros Hent Hother HAB HB.
  apply (substitute_single enc _ "__OUTPUT__" o); try done.
  - intros p v Hp Hne. apply values_inv in Hp as (fn & now & Hfn & _).
    apply Hent, builtin_lookup in Hfn.
    rewrite !Forall_cons in Hother.
    intuition (subst; try done).
  - intros v Hv. apply values_inv in Hv as (fn & now & Hfn & ->).
    apply Hent, builtin_lookup in Hfn. intuition (subst; try done; discriminate).
  - apply (values_visits _ _ _ _ _ _ (fun _ _ output => output)). apply Hent. reflexivity.
Qed.

Lemma builtin_world_registry : heap builtin_world !!! 0%nat = {| placeholders := builtin_placeholders |}.
Proof. unfold builtin_world. rewrite NewPlaceholderRegistry_run. reflexivity. Qed.

Lemma visit_order_builtin env w pr :
  heap w !!! pr = {| placeholders := builtin_placeholders |} ->
  forall p fn, (p, fn) ∈ visit_order env w pr <-> builtin_placeholders !! p = Some fn.
Proof.
  intros H p fn. unfold visit_order. rewrite pick_order_perm, H. apply elem_of_map_to_list.
Qed.

Lemma registered_builtin w pr p :
  heap w !!! pr = {| placeholders := builtin_placeholders |} ->
  registered w pr p ->
  p ∈ ["__STATUS_CODE__"; "__OUTPUT__"; "__TIMESTAMP__"; "__DATE__"; "__TIME__"].
Proof.
  unfold registered. intros -> [fn Hfn]. apply builtin_lookup in Hfn.
  rewrite !elem_of_cons. intuition (subst; auto 10).
Qed.

Lemma values_fst env t e o entries : (values env t e o entries).*1 = entries.*1.
Proof.
  revert t; induction entries as [|[p fn] entries IH]; intros t; [reflexivity|].
  simpl. by rewrite IH.
Qed.

Lemma visit_order_tokens env w pr p :
  registered w pr p <-> p ∈ (visit_order env w pr).*1.
Proof.
  unfold registered. rewrite list_elem_of_fmap. split.
  - intros [fn Hfn]. exists (p, fn). split; [done|]. by apply visit_order_visits.
  - intros ([q fn] & -> & Hfn). apply visit_order_registered in Hfn. eauto.
Qed.

(** ** The placeholder registry *)

(** C7, as amended: for every text, exit code and output, if the text
    contains none of the registered placeholder tokens then [Replace]
    returns the text unchanged, in whatever order the tokens are visited.
    (The converse is not claimed.) *)
Theorem Replace_unchanged_without_tokens pr text e o env w :
  (forall p, registered w pr p -> go_strings.Contains text p = false) ->
  (Replace pr text e o env w).1 = text.
Proof.
  intros H. rewrite Replace_run. cbn [fst]. apply substitute_absent.
  intros p v Hp. apply values_tokens in Hp as [fn Hfn].
  apply visit_order_registered in Hfn. apply H. unfold registered. rewrite Hfn. eauto.
Qed.

Lemma Replace_unchanged_without_tokens_witness :
  (Replace 0 "the nightly backup failed" 1 "disk full" calm builtin_world).1
  = "the nightly backup failed".
Proof.
  apply (Replace_unchanged_without_tokens 0 "the nightly backup failed" 1 "disk full"
           calm builtin_world).
  intros p Hp. apply (registered_builtin _ _ _ builtin_world_registry) in Hp.
  rewrite !elem_of_cons in Hp.
  destruct Hp as [->|[->|[->|[->|[->|Hp]]]]];
    [reflexivity..|by apply elem_of_nil in Hp].
Defined.

(** C7, as stated, fails: with the built-in registry the text
    [__OUTPUT__] is returned unchanged when the output of the command is
    itself the text [__OUTPUT__], although it contains a registered
    token. *)
Lemma Replace_unchanged_with_token :
  ~ ((Replace 0 "__OUTPUT__" 0 "__OUTPUT__" calm builtin_world).1 = "__OUTPUT__" <->
     (forall p, registered builtin_world 0 p -> go_strings.Contains "__OUTPUT__" p = false)).
Proof.
  intros [H _].
  assert (Hr : registered builtin_world 0 "__OUTPUT__") by (vm_compute; eauto).
  specialize (H ltac:(vm_compute; reflexivity) _ Hr). vm_compute in H. discriminate.
Qed.

Lemma ReplaceURLEncoded_example env :
  (ReplaceURLEncoded 0 "https://example.com?output=__OUTPUT__" 0 "Error & Warning"
     env builtin_world).1
  = "https://example.com?output=Error+%26+Warning".
Proof.
  rewrite ReplaceURLEncoded_run. cbn [fst].
  apply substitute_output.
  - apply visit_order_builtin, builtin_world_registry.
  - repeat constructor; vm_compute; reflexivity.
  - vm_compute; reflexivity.
  - vm_compute; reflexivity.
Qed.

(** C6: [ReplaceURLEncoded] performs the substitution [Replace] performs
    (same tokens, same order, same values of the placeholder functions)
    except that each value is query-escaped before it is substituted. A
    substitution cuts the text at the occurrences of the token and copies
    the pieces in between byte for byte, and a text without tokens is
    returned as it is, reserved characters included; an escaped value
    consists of unreserved characters, [+] and [%] only, a space becoming
    [+]. With the built-in registry, output [Error & Warning] substituted
    for [__OUTPUT__] gives [Error+%26+Warning], whatever the order of
    visit. *)
Theorem ReplaceURLEncoded_encodes_values pr text e o env w :
  let steps := values env (S (tick w)) e o (visit_order env w pr) in
  (Replace pr text e o env w).1 = substitute id steps text /\
  (ReplaceURLEncoded pr text e o env w).1 = substitute go_url.QueryEscape steps text /\
  (forall p, registered w pr p <-> p ∈ steps.*1) /\
  (forall r p v, exists segs,
      r = go_strings.Join segs p /\
      go_strings.Replace r p (go_url.QueryEscape v) (-1)
      = go_strings.Join segs (go_url.QueryEscape v)) /\
  ((forall p, registered w pr p -> go_strings.Contains text p = false) ->
   (ReplaceURLEncoded pr text e o env w).1 = text) /\
  (forall v, all_chars url_safe (go_url.QueryEscape v) = true) /\
  go_url.QueryEscape " " = "+" /\
  (ReplaceURLEncoded 0 "https://example.com?output=__OUTPUT__" 0 "Error & Warning"
     env builtin_world).1
  = "https://example.com?output=Error+%26+Warning".
Proof.
  cbv zeta. rewrite Replace_run, ReplaceURLEncoded_run. cbn [fst].
  split; [reflexivity|]. split; [reflexivity|]. split.
  { intros p. rewrite values_fst. apply visit_order_tokens. }
  split; [intros r p v; apply Replace_segments|].
  split.
  { intros H. apply substitute_absent. intros p v Hp.
    apply values_tokens in Hp as [fn Hfn]. apply visit_order_registered in Hfn.
    apply H. unfold registered. rewrite Hfn. eauto. }
  split; [apply QueryEscape_safe|]. split; [reflexivity|].
  apply ReplaceURLEncoded_example.
Qed.

(** C10: [Replace] and [ReplaceURLEncoded] change nothing in the world but
    the count of questions asked: the heap, hence every registry with its
    tokens and their functions, is as before, and a later pass visits the
    same entries. [Register] is what changes a registry: it binds the
    token in the registry it is called on and leaves the others alone. *)
Theorem Replace_preserves_registry pr text e o env w :
  (exists n, (Replace pr text e o env w).2 = set_tick n w) /\
  (exists n, (ReplaceURLEncoded pr text e o env w).2 = set_tick n w) /\
  heap (Replace pr text e o env w).2 = heap w /\
  heap (ReplaceURLEncoded pr text e o env w).2 = heap w /\
  (forall pr' p, registered (Replace pr text e o env w).2 pr' p <-> registered w pr' p) /\
  (forall pr' p, registered (ReplaceURLEncoded pr text e o env w).2 pr' p
                 <-> registered w pr' p) /\
  (forall token fn,
      heap (Register pr token fn env w).2 !!! pr
      = {| placeholders := <[token := fn]> (placeholders (heap w !!! pr)) |}) /\
  (forall token fn pr', pr' <> pr ->
      heap (Register pr token fn env w).2 !!! pr' = heap w !!! pr').
Proof.
  rewrite Replace_run, ReplaceURLEncoded_run. cbn [snd].
  repeat split; eauto.
  - intros token fn. rewrite Register_run. cbn. apply lookup_total_insert_eq.
  - intros token fn pr' Hne. rewrite Register_run. cbn. by apply lookup_total_insert_ne.
Qed.

(** ** Running the monitored command *)

Lemma when_run b (m : IO unit) env w :
  when b m env w = if b then m env w else (tt, w).
Proof. by destruct b. Qed.

Lemma RunCommand_run fh ctx command args env w :
  let res := cmd_Run env (S (tick w)) ctx command args in
  (RunCommand fh ctx command args env w).1
  = (exit_code_of (proc_err res),
     go_strings.TrimSpace (proc_stdout res +:+ proc_stderr res),
     proc_err res).
Proof.
  unfold RunCommand. rewrite !bind_run. cbn [fst snd].
  destruct (fh_debug fh); reflexivity.
Qed.

Lemma ExitStatus_exit n : 0 <= n < 256 -> go_syscall.ExitStatus (Z.shiftl n 8) = n.
Proof.
  intros Hn.
  unfold go_syscall.ExitStatus, go_syscall.Exited, go_syscall.mask,
    go_syscall.exited, go_syscall.shift.
  change 127 with (Z.ones 7). change 255 with (Z.ones 8).
  rewrite !Z.land_ones by lia. rewrite Z.shiftr_shiftl_l by lia.
  change (8 - 8) with 0. rewrite Z.shiftl_0_r.
  rewrite Z.shiftl_mul_pow2 by lia.
  replace (n * 2 ^ 8) with ((n * 2) * 2 ^ 7) by lia. rewrite Z.mod_mul by lia.
  cbn [Z.eqb negb]. apply Z.mod_small. lia.
Qed.

(** C4: the exit code [RunCommand] returns is 0 when the error of the
    child process is nil; the exit status held in the wait status when the
    child exited (a child that called [exit n] has wait status [n << 8],
    so [exit 42] gives 42); and 1 when the error is not an exit error
    (launch failure) or the process state holds no wait status to read
    an exit status from. *)
Theorem RunCommand_exit_code fh ctx command args env w :
  let res := cmd_Run env (S (tick w)) ctx command args in
  let exitCode := (RunCommand fh ctx command args env w).1.1.1 in
  (proc_err res = None -> exitCode = 0) /\
  (forall status msg,
      proc_err res = Some (ExitError (WaitStatus status) msg) ->
      go_syscall.Exited status = true ->
      exitCode = Z.land (Z.shiftr status 8) 255) /\
  (forall n msg,
      0 <= n < 256 ->
      proc_err res = Some (ExitError (WaitStatus (Z.shiftl n 8)) msg) ->
      exitCode = n) /\
  (forall msg, proc_err res = Some (ExitError (WaitStatus (Z.shiftl 42 8)) msg) ->
      exitCode = 42) /\
  (forall msg, proc_err res = Some (Errorf msg) -> exitCode = 1) /\
  (forall msg, proc_err res = Some (ExitError SysOther msg) -> exitCode = 1).
Proof.
  cbv zeta. rewrite RunCommand_run. cbn [fst].
  repeat split.
  - by intros ->.
  - intros status msg -> Hex. cbn [exit_code_of]. unfold go_syscall.ExitStatus.
    by rewrite Hex.
  - intros n msg Hn ->. cbn [exit_code_of]. by apply ExitStatus_exit.
  - by intros msg ->.
  - by intros msg ->.
  - by intros msg ->.
Qed.

(** The command [sh -c "exit 42"] in an environment that runs it. *)
Lemma RunCommand_exit_code_witness :
  (RunCommand (NewFailHook false) (make_context 0) "sh" ["-c"; "exit 42"]
     (with_run exit_42 calm) World0).1.1.1 = 42.
Proof.
  apply (RunCommand_exit_code (NewFailHook false) (make_context 0) "sh" ["-c"; "exit 42"]
           (with_run exit_42 calm) World0)
    with (msg := "exit status 42").
  reflexivity.
Defined.

(** What the claim leaves open: a child killed by a signal has a wait
    status that is not an exit, and [ExitStatus] gives -1. *)
Lemma RunCommand_exit_code_signaled fh ctx command args env w signal msg :
  0 < signal < 127 ->
  proc_err (cmd_Run env (S (tick w)) ctx command args)
  = Some (ExitError (WaitStatus signal) msg) ->
  (RunCommand fh ctx command args env w).1.1.1 = -1.
Proof.
  intros Hs Herr. rewrite RunCommand_run. cbn [fst]. rewrite Herr. cbn [exit_code_of].
  unfold go_syscall.ExitStatus, go_syscall.Exited, go_syscall.mask, go_syscall.exited.
  change 127 with (Z.ones 7). rewrite Z.land_ones by lia.
  rewrite Z.mod_small by (change (2 ^ 7) with 128; lia).
  destruct (Z.eqb_spec signal 0); [lia|reflexivity].
Qed.

(** C5, as amended: the combined output [RunCommand] returns is the stdout
    buffer followed by the stderr buffer (stdout first, nothing in
    between, neither buffer trimmed on its own), the whole trimmed of
    leading and trailing white space. *)
Theorem RunCommand_output fh ctx command args env w :
  let res := cmd_Run env (S (tick w)) ctx command args in
  (RunCommand fh ctx command args env w).1.1.2
  = go_strings.TrimSpace (proc_stdout res +:+ proc_stderr res).
Proof. cbv zeta. by rewrite RunCommand_run. Qed.

(** C5, as stated, fails: when the command writes a line to each stream,
    the line break that ends the stdout buffer stays between the two. *)
Lemma RunCommand_output_keeps_inner_space :
  let res := {| proc_stdout := "standard output" +:+ nl;
                proc_stderr := "standard error" +:+ nl;
                proc_err := None |} in
  (RunCommand (NewFailHook false) (make_context 0) "sh"
     ["-c"; "echo standard output; echo standard error >&2"]
     (with_run res calm) World0).1.1.2
  = "standard output" +:+ nl +:+ "standard error"
  /\ combinedOutput_spec (proc_stdout res) (proc_stderr res)
     = "standard outputstandard error"
  /\ (RunCommand (NewFailHook false) (make_context 0) "sh"
        ["-c"; "echo standard output; echo standard error >&2"]
        (with_run res calm) World0).1.1.2
     <> combinedOutput_spec (proc_stdout res) (proc_stderr res).
Proof. cbv zeta. split; [|split]; vm_compute; [reflexivity..|discriminate]. Qed.

(** ** Classification of the run *)

Lemma classify_run ctx timeout exitCode output err env w :
  (classify ctx timeout (exitCode, output, err) env w).1
  = if is_DeadlineExceeded (ctx_Err env (tick w) ctx)
    then (124, "Command timed out after " +:+ pretty timeout +:+ " seconds")
    else if is_Canceled (ctx_Err env (S (tick w)) ctx) && bool_decide (err <> None)
         then (130, "Command was interrupted")
         else (exitCode, output).
Proof.
  unfold classify. rewrite bind_run. cbn [ask fst snd].
  destruct (is_DeadlineExceeded _); [reflexivity|].
  rewrite bind_run. cbn [ask fst snd tick set_tick].
  destruct (is_Canceled _ && _); reflexivity.
Qed.

(** C2: after [RunCommand] has returned, if the error of the context reads
    [DeadlineExceeded] the run resolves to exit code 124 and the timeout
    message, whatever [RunCommand] returned; else if it reads [Canceled]
    and [RunCommand] returned an error, to 130 and the interruption
    message; otherwise to the exit code and output of [RunCommand]
    themselves. The program reads the error of the context once for each
    of the two tests. *)
Theorem classify_resolves ctx timeout exitCode output err env w :
  let first := ctx_Err env (tick w) ctx in
  let second := ctx_Err env (S (tick w)) ctx in
  let resolved := (classify ctx timeout (exitCode, output, err) env w).1 in
  (first = DeadlineExceeded ->
     resolved = (124, "Command timed out after " +:+ pretty timeout +:+ " seconds")) /\
  (first <> DeadlineExceeded -> second = Canceled -> err <> None ->
     resolved = (130, "Command was interrupted")) /\
  (first <> DeadlineExceeded -> ~ (second = Canceled /\ err <> None) ->
     resolved = (exitCode, output)).
Proof.
  cbv zeta. rewrite classify_run. split; [|split].
  - by intros ->.
  - intros H1 -> H3. destruct (ctx_Err env (tick w) ctx); try done.
    all: cbn; by rewrite bool_decide_true.
  - intros H1 H2.
    assert (is_DeadlineExceeded (ctx_Err env (tick w) ctx) = false) as ->
      by (destruct (ctx_Err env (tick w) ctx); done).
    destruct (ctx_Err env (S (tick w)) ctx) eqn:E; try reflexivity.
    cbn. rewrite bool_decide_false; [reflexivity|]. intros H. apply H2. done.
Qed.

(** A run that timed out after 5 seconds, and a run interrupted by a
    signal. *)
Lemma classify_resolves_witness :
  (classify (make_context 5) 5 (0, "partial output", None)
     (with_ctx DeadlineExceeded calm) World0).1
  = (124, "Command timed out after 5 seconds")
  /\ (classify (make_context 0) 0 (-1, "", Some (ExitError (WaitStatus 2) "signal: interrupt"))
        (with_ctx Canceled calm) World0).1
     = (130, "Command was interrupted").
Proof.
  split.
  - apply (classify_resolves (make_context 5) 5 0 "partial output" None
             (with_ctx DeadlineExceeded calm) World0).
    reflexivity.
  - apply (classify_resolves (make_context 0) 0 (-1) ""
             (Some (ExitError (WaitStatus 2) "signal: interrupt"))
             (with_ctx Canceled calm) World0); done.
Defined.

(** ** Traces of the dispatch *)

Lemma calls_app a b : calls (a ++ b) = calls a ++ calls b.
Proof.
  induction a as [|ev a IH]; [reflexivity|]. destruct ev; simpl; rewrite ?IH; reflexivity.
Qed.

Lemma quiet_ret {A} (a : A) : quiet (mret a).
Proof. intros env w. exists []. by rewrite app_nil_r. Qed.

Lemma quiet_bind {A B} (m : IO A) (k : A -> IO B) :
  quiet m -> (forall a, quiet (k a)) -> quiet (m ≫= k).
Proof.
  intros Hm Hk env w. rewrite bind_run.
  destruct (Hm env w) as (n1 & H1 & C1).
  destruct (Hk (m env w).1 env (m env w).2) as (n2 & H2 & C2).
  exists (n1 ++ n2). rewrite H2, H1, calls_app, C1, C2, app_assoc. done.
Qed.

Lemma quiet_pure {A} (m : IO A) :
  (forall env w, trace (m env w).2 = trace w) -> quiet m.
Proof. intros H env w. exists []. by rewrite H, app_nil_r. Qed.

Lemma quiet_Printf text : quiet (Printf text).
Proof. intros env w. by exists [Stdout text]. Qed.
Lemma quiet_Println text : quiet (Println text).
Proof. intros env w. by exists [Stdout (text +:+ nl)]. Qed.
Lemma quiet_Stderr text : quiet (Fprintf_Stderr text).
Proof. intros env w. by exists [Stderr text]. Qed.
Lemma quiet_when b m : quiet m -> quiet (when b m).
Proof. destruct b; [done|]. intros _. apply quiet_ret. Qed.
Lemma quiet_ask {A} (q : Env -> nat -> A) : quiet (ask q).
Proof. by apply quiet_pure. Qed.
Lemma quiet_alloc r : quiet (alloc r).
Proof. by apply quiet_pure. Qed.
Lemma quiet_Register pr p fn : quiet (Register pr p fn).
Proof. by apply quiet_pure. Qed.
Lemma quiet_run_command ctx c a : quiet (run_command ctx c a).
Proof. intros env w. eexists [_]. split; reflexivity. Qed.

Create HintDb quiet.
#[local] Hint Resolve quiet_ret quiet_Printf quiet_Println quiet_Stderr quiet_when quiet_ask
  quiet_alloc quiet_Register quiet_run_command : quiet.
#[local] Hint Extern 1 (quiet (_ ≫= _)) => apply quiet_bind; [|intros ?] : quiet.
#[local] Hint Extern 1 (quiet (if ?b then _ else _)) => destruct b : quiet.
#[local] Hint Extern 1 (quiet (match ?x with (_, _) => _ end)) => destruct x : quiet.

Lemma quiet_NewPlaceholderRegistry : quiet NewPlaceholderRegistry.
Proof. unfold NewPlaceholderRegistry. auto 20 with quiet. Qed.
#[local] Hint Resolve quiet_NewPlaceholderRegistry : quiet.

Lemma quiet_AddHandler fh h : quiet (AddHandler fh h).
Proof. unfold AddHandler. auto 10 with quiet. Qed.
#[local] Hint Resolve quiet_AddHandler : quiet.

Lemma quiet_register_handlers f : quiet (register_handlers f).
Proof.
  unfold register_handlers, NewCommandHandler, NewWebhookHandler, NewSyslogHandler,
    NewSlackHandler.
  auto 20 with quiet.
Qed.

Lemma quiet_RunCommand fh ctx c a : quiet (RunCommand fh ctx c a).
Proof.
  unfold RunCommand. repeat (apply quiet_bind; [|intros ?]); auto with quiet.
Qed.

Lemma quiet_classify ctx t run : quiet (classify ctx t run).
Proof. unfold classify. destruct run as [[e o] err]. auto 20 with quiet. Qed.

Lemma AddHandler_handlers fh h env w :
  fh_handlers (AddHandler fh h env w).1 = fh_handlers fh ++ [h] /\
  fh_debug (AddHandler fh h env w).1 = fh_debug fh.
Proof. unfold AddHandler. rewrite bind_run. done. Qed.

Lemma step_run {H} `{FailureHandler H} (b : bool) (mk : IO H) fh env w :
  let r := (if b then h ← mk; AddHandler fh (Dyn h) else mret fh) env w in
  fh_handlers r.1 = fh_handlers fh ++ (if b then [Dyn (mk env w).1] else []) /\
  fh_debug r.1 = fh_debug fh.
Proof.
  destruct b; cbv zeta.
  - rewrite bind_run. apply AddHandler_handlers.
  - cbn. by rewrite app_nil_r.
Qed.

Lemma NewCommandHandler_fst c env w :
  (NewCommandHandler c env w).1 = {| ch_command := c; ch_registry := next w |}.
Proof. unfold NewCommandHandler. by rewrite bind_run, NewPlaceholderRegistry_run. Qed.

Lemma NewWebhookHandler_fst u env w :
  (NewWebhookHandler u env w).1 = {| wh_webhookURL := u; wh_registry := next w |}.
Proof. unfold NewWebhookHandler. by rewrite bind_run, NewPlaceholderRegistry_run. Qed.

Lemma NewSyslogHandler_fst m env w :
  (NewSyslogHandler m env w).1 = {| sy_message := m; sy_registry := next w |}.
Proof. unfold NewSyslogHandler. by rewrite bind_run, NewPlaceholderRegistry_run. Qed.

Lemma NewSlackHandler_fst u m env w :
  (NewSlackHandler u m [] env w).1
  = {| sl_webhookURL := u; sl_message := m; sl_channel := ""; sl_username := "FailHook";
       sl_registry := next w |}.
Proof. unfold NewSlackHandler. by rewrite bind_run, NewPlaceholderRegistry_run. Qed.

Lemma register_handlers_handlers f env w :
  exists a b c d,
    fh_handlers (register_handlers f env w).1 = configured f a b c d /\
    fh_debug (register_handlers f env w).1 = debug f.
Proof.
  unfold register_handlers.
  rewrite !bind_run.
  repeat match goal with
  | |- context [(if negb ?b then @mbind _ _ _ _ (fun h => AddHandler ?fh _) ?mk else mret _) ?env ?w] =>
      let H1 := fresh in let H2 := fresh in
      destruct (step_run (negb b) mk fh env w) as [H1 H2]; cbv zeta in H1, H2;
      rewrite ?H1, ?H2; clear H1 H2
  end.
  rewrite NewCommandHandler_fst, NewWebhookHandler_fst, NewSyslogHandler_fst,
    NewSlackHandler_fst.
  repeat match goal with
  | |- context [next ?w0] => generalize (next w0); intro
  end.
  unfold configured. eexists _, _, _, _. split; [|reflexivity].
  destruct (String.eqb (command f) ""), (String.eqb (webhook f) ""),
    (String.eqb (syslogMsg f) ""), (String.eqb (slackWebhook f) ""); reflexivity.
Qed.

Lemma calls_dispatch_events debug d e o oc :
  calls (dispatch_events debug d e o oc) = [(d, e, o)].
Proof. unfold dispatch_events. destruct debug, oc as [inner [err|]]; reflexivity. Qed.

Lemma handle_one_trace fh e o h env w :
  exists oc, trace (handle_one fh e o h env w).2
             = trace w ++ dispatch_events (fh_debug fh) (handler_Description h) e o oc.
Proof.
  unfold handle_one. rewrite !bind_run. destruct h as [H inst h].
  unfold handler_Handle. cbn [handler_Description].
  set (w1 := (when _ _ env w).2).
  destruct (Handle h e o env (set_trace [] w1)) as [res w2] eqn:E.
  exists (trace w2, res). cbn [fst snd].
  assert (Hw1 : trace w1 = trace w ++ (if fh_debug fh then [Stdout ("Executing handler: " +:+ Description h +:+ nl)] else [])).
  { unfold w1. rewrite when_run. destruct (fh_debug fh); cbn; [reflexivity|by rewrite app_nil_r]. }
  unfold dispatch_events. cbn [fst snd].
  destruct res as [err|]; cbn; rewrite Hw1, <- ?app_assoc; reflexivity.
Qed.

Lemma HandleFailure_trace fh e o env w :
  exists outcomes,
    length outcomes = length (fh_handlers fh) /\
    trace (HandleFailure fh e o env w).2
    = trace w ++ concat (zip_with (fun h oc =>
          dispatch_events (fh_debug fh) (handler_Description h) e o oc)
        (fh_handlers fh) outcomes).
Proof.
  unfold HandleFailure. change (for_range (fh_handlers fh) ?b) with (for_range (fh_handlers fh) (handle_one fh e o)).
  generalize (fh_handlers fh) as hs. intros hs. revert w.
  induction hs as [|h hs IH]; intros w.
  - exists []. split; [reflexivity|]. cbn. by rewrite app_nil_r.
  - cbn [for_range]. rewrite bind_run.
    destruct (handle_one_trace fh e o h env w) as [oc Hoc].
    destruct (IH (handle_one fh e o h env w).2) as (ocs & Hlen & Hocs).
    exists (oc :: ocs). split; [simpl; congruence|].
    rewrite Hocs, Hoc. cbn [zip_with concat]. by rewrite <- app_assoc.
Qed.

Lemma calls_dispatched debug e o (hs : list handler) : forall outcomes,
  length outcomes = length hs ->
  calls (concat (zip_with (fun h oc => dispatch_events debug (handler_Description h) e o oc)
                   hs outcomes))
  = map (fun h => (handler_Description h, e, o)) hs.
Proof.
  induction hs as [|h hs IH]; intros [|oc ocs] Hlen; try discriminate; [reflexivity|].
  cbn [zip_with concat map]. rewrite calls_app, calls_dispatch_events, IH by (simpl in Hlen; lia).
  reflexivity.
Qed.

Lemma configured_described f a b c d :
  map handler_Description (configured f a b c d) = configured_descriptions f.
Proof.
  unfold configured, configured_descriptions.
  destruct (String.eqb (command f) ""), (String.eqb (webhook f) ""),
    (String.eqb (syslogMsg f) ""), (String.eqb (slackWebhook f) ""); reflexivity.
Qed.

Lemma dispatch_trace fh dbg e o env w :
  exists new,
    trace (dispatch fh dbg e o env w).2 = trace w ++ new /\
    calls new = if e =? 0 then [] else map (fun h => (handler_Description h, e, o)) (fh_handlers fh).
Proof.
  unfold dispatch. destruct (e =? 0).
  - assert (Q : quiet (when dbg (Println "Command succeeded, exiting normally");; mret (Exit 0)))
      by auto 10 with quiet.
    apply Q.
  - rewrite !bind_run. cbn [mret IO_ret snd].
    set (w1 := (when dbg _ env w).2).
    assert (Hw1 : exists n1, trace w1 = trace w ++ n1 /\ calls n1 = []).
    { unfold w1. apply (quiet_when dbg (Printf _)). auto with quiet. }
    destruct Hw1 as (n1 & Hn1 & Cn1).
    destruct (HandleFailure_trace fh e o env w1) as (ocs & Hlen & Hocs).
    eexists. rewrite Hocs, Hn1, <- app_assoc. split; [reflexivity|].
    rewrite calls_app, Cn1. by apply calls_dispatched.
Qed.

Lemma Marshal_SlackMessage_payload text channel username :
  Marshal_SlackMessage {| Text := text; Channel := channel; Username := username |}
  = (slack_payload text channel username, None).
Proof.
  unfold Marshal_SlackMessage, slack_payload, go_json.Marshal_struct, SlackMessage_fields.
  f_equal. cbn [Text Channel Username].
  assert (K1 : go_json.appendString "text" = dq +:+ "text" +:+ dq) by reflexivity.
  assert (K2 : go_json.appendString "channel" = dq +:+ "channel" +:+ dq) by reflexivity.
  assert (K3 : go_json.appendString "username" = dq +:+ "username" +:+ dq) by reflexivity.
  assert (E1 : forall k c s, go_json.emitted (go_json.Field k true (String c s)) = true).
  { intros. unfold go_json.emitted, len. reflexivity. }
  assert (E0 : forall k, go_json.emitted (go_json.Field k true "") = false) by reflexivity.
  destruct channel as [|c cs], username as [|u us]; cbn [List.filter];
    rewrite ?E1, ?E0; cbn [go_json.emitted go_json.omitempty andb negb map go_strings.Join
                      go_json.encode_field go_json.key go_json.value String.eqb];
    rewrite ?K1, ?K2, ?K3, ?append_assoc'; reflexivity.
Qed.

Lemma SlackHandler_Handle_run h e o env w :
  let text := (Replace (sl_registry h) (sl_message h) e o env w).1 in
  let w1 := (Replace (sl_registry h) (sl_message h) e o env w).2 in
  let payload := slack_payload text (sl_channel h) (sl_username h) in
  let resp := http_Post env (tick w1) (sl_webhookURL h) "application/json" payload in
  SlackHandler_Handle h e o env w
  = (match resp with
     | inl err => Some (Errorf ("error sending Slack message: " +:+ Error err))
     | inr StatusCode =>
         if StatusCode =? 200 then None
         else Some (Errorf ("slack API returned status code " +:+ pretty StatusCode))
     end,
     set_trace (trace w1 ++ [HttpPost (sl_webhookURL h) "application/json" payload resp])
       (set_tick (S (tick w1)) w1)).
Proof.
  cbv zeta. unfold SlackHandler_Handle. rewrite bind_run.
  set (text := (Replace _ _ e o env w).1). set (w1 := (Replace _ _ e o env w).2).
  assert (Hm : (if negb (String.eqb (sl_channel h) "")
                then {| Text := text; Channel := sl_channel h; Username := sl_username h |}
                else {| Text := text; Channel := ""; Username := sl_username h |})
               = {| Text := text; Channel := sl_channel h; Username := sl_username h |}).
  { destruct (String.eqb_spec (sl_channel h) "") as [->|]; reflexivity. }
  cbn [Text Username]. rewrite Hm, Marshal_SlackMessage_payload.
  rewrite bind_run. cbn [http_post fst snd].
  destruct (http_Post env (tick w1) _ _ _) as [err|s]; [reflexivity|].
  destruct (s =? 200); reflexivity.
Qed.

(** ** Failure dispatch *)

(** C3: for every exit code and output (so for every exit code other than
    0) and every list of handlers, [HandleFailure] calls [Handle] with that
    exit code and output once on each registered handler, in registration
    order, whatever the handlers did and returned: the trace grows by one
    block per handler, holding the call and, exactly when the call
    returned an error, one line on the error stream tagged with the
    description of that handler. [HandleFailure] itself returns nothing
    and cannot fail. *)
Theorem HandleFailure_calls_every_handler fh exitCode output env w :
  exists outcomes : list (list Event * option error),
    length outcomes = length (fh_handlers fh) /\
    trace (HandleFailure fh exitCode output env w).2
    = trace w ++ concat (zip_with (fun h outcome =>
          dispatch_events (fh_debug fh) (handler_Description h) exitCode output outcome)
        (fh_handlers fh) outcomes) /\
    calls (concat (zip_with (fun h outcome =>
          dispatch_events (fh_debug fh) (handler_Description h) exitCode output outcome)
        (fh_handlers fh) outcomes))
    = map (fun h => (handler_Description h, exitCode, output)) (fh_handlers fh) /\
    (HandleFailure fh exitCode output env w).1 = tt.
Proof.
  destruct (HandleFailure_trace fh exitCode output env w) as (ocs & Hlen & Htr).
  exists ocs. split; [done|]. split; [done|]. split; [by apply calls_dispatched|].
  by destruct (HandleFailure fh exitCode output env w).1.
Qed.

(** Two handlers, the first of which fails: the second is called all the
    same, and the failure of the first is reported. *)
Lemma HandleFailure_continues_after_error :
  let fh := {| fh_handlers :=
                 [Dyn {| ch_command := "false"; ch_registry := 0 |};
                  Dyn {| sy_message := "failed: __STATUS_CODE__"; sy_registry := 0 |}];
               fh_debug := false |} in
  let env := with_shell (Some (ExitError (WaitStatus 256) "exit status 1")) calm in
  trace (HandleFailure fh 3 "boom" env builtin_world).2
  = [ Call "Execute command: false" 3 "boom"
        [Shell "false" (Some (ExitError (WaitStatus 256) "exit status 1"))]
        (Some (ExitError (WaitStatus 256) "exit status 1"));
      Stderr ("Error with handler Execute command: false: exit status 1" +:+ nl);
      Call "Send to syslog: failed: __STATUS_CODE__" 3 "boom"
        [SyslogNew None; SyslogErr "failed: 3" None; SyslogClose] None ].
Proof. vm_compute. reflexivity. Qed.

(** ** The Slack handler *)

(** C8: for every Slack handler, [Handle] marshals a JSON object in which
    the key [text] is always present, the key [channel] is present exactly
    when the channel of the handler is not empty and the key [username]
    exactly when its username is not empty (a handler made without
    options has the username [FailHook] and no channel), and POSTs it to
    the webhook URL with content type [application/json]; [Handle]
    returns nil if and only if the POST succeeded with status 200. *)
Theorem SlackHandler_Handle_posts (h : SlackHandler) e o env w :
  let text := (Replace (sl_registry h) (sl_message h) e o env w).1 in
  let payload :=
    "{" +:+ dq +:+ "text" +:+ dq +:+ ":" +:+ go_json.appendString text
    +:+ (if String.eqb (sl_channel h) "" then ""
         else "," +:+ dq +:+ "channel" +:+ dq +:+ ":" +:+ go_json.appendString (sl_channel h))
    +:+ (if String.eqb (sl_username h) "" then ""
         else "," +:+ dq +:+ "username" +:+ dq +:+ ":"
              +:+ go_json.appendString (sl_username h))
    +:+ "}" in
  (exists resp,
      trace (Handle h e o env w).2
      = trace w ++ [HttpPost (sl_webhookURL h) "application/json" payload resp] /\
      ((Handle h e o env w).1 = None <-> resp = inr 200)) /\
  (forall url msg env' w',
      sl_username (NewSlackHandler url msg [] env' w').1 = "FailHook" /\
      sl_channel (NewSlackHandler url msg [] env' w').1 = "").
Proof.
  cbv zeta. split.
  - change (Handle h e o env w) with (SlackHandler_Handle h e o env w).
    pose proof (SlackHandler_Handle_run h e o env w) as Hrun. cbv zeta in Hrun.
    rewrite Hrun. clear Hrun. cbn [fst snd].
    rewrite Replace_run. cbn [fst snd trace set_tick set_trace tick].
    eexists. split; [reflexivity|].
    match goal with
    | |- context [http_Post ?a ?b ?c ?d ?e] =>
        destruct (http_Post a b c d e) as [err|s]
    end.
    + split; discriminate.
    + destruct (Z.eqb_spec s 200) as [->|Hne]; split; try done. intros [=]. done.
  - intros. by rewrite NewSlackHandler_fst.
Qed.

(** The example of the specification: channel [#testing], username
    [TestBot], and an endpoint that answers 200, then one that answers
    500. *)
Lemma SlackHandler_Handle_example :
  let h := WithUsername "TestBot" (WithChannel "#testing"
             {| sl_webhookURL := "http://127.0.0.1:8080";
                sl_message := "Error: __STATUS_CODE__ - __OUTPUT__";
                sl_channel := ""; sl_username := "FailHook"; sl_registry := 0 |}) in
  let payload :=
    "{" +:+ dq +:+ "text" +:+ dq +:+ ":" +:+ dq +:+ "Error: 127 - command not found" +:+ dq
    +:+ "," +:+ dq +:+ "channel" +:+ dq +:+ ":" +:+ dq +:+ "#testing" +:+ dq
    +:+ "," +:+ dq +:+ "username" +:+ dq +:+ ":" +:+ dq +:+ "TestBot" +:+ dq +:+ "}" in
  (Handle h 127 "command not found" calm builtin_world).1 = None /\
  trace (Handle h 127 "command not found" calm builtin_world).2
  = [HttpPost "http://127.0.0.1:8080" "application/json" payload (inr 200)] /\
  (Handle h 127 "command not found" (with_post (inr 500) calm) builtin_world).1
  = Some (Errorf "slack API returned status code 500").
Proof. cbv zeta. repeat split; vm_compute; reflexivity. Qed.

(** ** The whole run *)

Lemma resolve_quiet f cmd args : quiet (resolve f cmd args).
Proof.
  unfold resolve.
  apply quiet_bind; [auto with quiet|intros _].
  apply quiet_bind; [apply quiet_register_handlers|intros fh].
  apply quiet_bind; [apply quiet_RunCommand|intros run].
  apply quiet_bind; [apply quiet_classify|intros [e o]].
  apply quiet_ret.
Qed.

Lemma resolve_handlers f cmd args env w :
  exists a b c d,
    fh_handlers (resolve f cmd args env w).1.1.1 = configured f a b c d /\
    fh_debug (resolve f cmd args env w).1.1.1 = debug f.
Proof.
  unfold resolve. rewrite !bind_run.
  set (w1 := (when (debug f) _ env w).2).
  destruct (register_handlers_handlers f env w1) as (a & b & c & d & Hh & Hd).
  exists a, b, c, d.
  destruct (classify _ _ _ env _) as [[e o] w4]. cbn [fst snd mret IO_ret]. done.
Qed.

Lemma supervise_run f cmd args env w :
  supervise f cmd args env w
  = dispatch (resolve f cmd args env w).1.1.1 (debug f)
      (resolve f cmd args env w).1.1.2 (resolve f cmd args env w).1.2
      env (resolve f cmd args env w).2.
Proof.
  unfold supervise. rewrite bind_run.
  by destruct (resolve f cmd args env w).1 as [[fh e] o].
Qed.

Lemma dispatch_outcome fh dbg e o env w :
  (dispatch fh dbg e o env w).1 = if e =? 0 then Exit 0 else Return.
Proof.
  unfold dispatch. destruct (e =? 0); rewrite !bind_run; reflexivity.
Qed.

(** Whatever the run resolves to, the process ends with exit status 0 once
    the monitored command has run: by [os.Exit(0)] on success, by the
    return from [main] after the failure was handled. *)
Lemma supervise_exit_status f cmd args env w :
  let e := (resolve f cmd args env w).1.1.2 in
  (supervise f cmd args env w).1 = (if e =? 0 then Exit 0 else Return) /\
  exit_status (supervise f cmd args env w).1 = 0.
Proof.
  cbv zeta. rewrite supervise_run, dispatch_outcome.
  by destruct (_ =? 0).
Qed.

(** Handlers are called exactly when the run resolves to a non-zero exit
    code, with the resolved exit code and output, before [main] ends. *)
Lemma supervise_trace f cmd args env w :
  let e := (resolve f cmd args env w).1.1.2 in
  let o := (resolve f cmd args env w).1.2 in
  exists new,
    trace (supervise f cmd args env w).2 = trace w ++ new /\
    calls new = if e =? 0 then []
                else map (fun d => (d, e, o)) (configured_descriptions f).
Proof.
  cbv zeta. rewrite supervise_run.
  destruct (resolve_quiet f cmd args env w) as (n1 & H1 & C1).
  destruct (resolve_handlers f cmd args env w) as (a & b & c & d & Hh & _).
  destruct (dispatch_trace (resolve f cmd args env w).1.1.1 (debug f)
              (resolve f cmd args env w).1.1.2 (resolve f cmd args env w).1.2
              env (resolve f cmd args env w).2) as (n2 & H2 & C2).
  exists (n1 ++ n2). split; [by rewrite H2, H1, app_assoc|].
  rewrite calls_app, C1, C2. cbn [app].
  destruct (_ =? 0); [reflexivity|].
  by rewrite Hh, <- (configured_described f a b c d), map_map.
Qed.

(** [main] reaches the supervision with the variables the flags were
    parsed into, whatever the order of the flags on the command line. *)
Lemma main_supervises Args env w v :
  let sepIndex := find_separator 0 Args in
  1 <= sepIndex < len_list Args - 1 ->
  flag_Parse env (take (Z.to_nat (sepIndex - 1)) (drop 1 Args)) = Parsed v ->
  showUsage (flag_vars v) = false ->
  main Args env w
  = supervise (flag_vars v)
      (default "" (Args !! Z.to_nat (sepIndex + 1)))
      (if sepIndex + 2 <? len_list Args then drop (Z.to_nat (sepIndex + 2)) Args else [])
      env w.
Proof.
  cbv zeta. intros Hsep Hparse Husage. unfold main.
  destruct (Z.eqb_spec (find_separator 0 Args) (-1)); [lia|].
  destruct (Z.eqb_spec (find_separator 0 Args) (len_list Args - 1)); [lia|].
  cbn [orb]. destruct (Z.ltb_spec (find_separator 0 Args) 1); [lia|].
  rewrite bind_run. cbn [fst snd]. rewrite Hparse, Husage. reflexivity.
Qed.

(** C9: whatever flags are non-empty, the handlers [main] registers are
    those of the non-empty flags in the order Command ([-c]), Webhook
    ([-w]), Syslog ([-s]), Slack ([-slack-webhook]); the order depends on
    the values of the flags only, not on where they stood on the command
    line. Failure dispatch visits the handlers in that order, in
    [HandleFailure] and in the run of [main] from the parsed flags on. *)
Theorem register_handlers_fixed_order f cmd args env w :
  (exists a b c d, fh_handlers (register_handlers f env w).1 = configured f a b c d) /\
  map handler_Description (fh_handlers (register_handlers f env w).1)
  = configured_descriptions f /\
  (forall e o env' w', exists new,
      trace (HandleFailure (register_handlers f env w).1 e o env' w').2 = trace w' ++ new /\
      calls new = map (fun d => (d, e, o)) (configured_descriptions f)) /\
  (exists new,
      trace (supervise f cmd args env w).2 = trace w ++ new /\
      calls new = if (resolve f cmd args env w).1.1.2 =? 0 then []
                  else map (fun d => (d, (resolve f cmd args env w).1.1.2,
                                         (resolve f cmd args env w).1.2))
                         (configured_descriptions f)).
Proof.
  destruct (register_handlers_handlers f env w) as (a & b & c & d & Hh & _).
  split; [by exists a, b, c, d|].
  split; [by rewrite Hh, configured_described|].
  split; [|apply supervise_trace].
  intros e o env' w'.
  destruct (HandleFailure_trace (register_handlers f env w).1 e o env' w')
    as (ocs & Hlen & Htr).
  eexists. split; [exact Htr|].
  rewrite calls_dispatched by done.
  by rewrite Hh, <- (configured_described f a b c d), map_map.
Qed.

(** Three of the four flags set: the three handlers, in the fixed order. *)
Lemma register_handlers_example :
  let f := flag_vars {| set_c := Some "logger failed"; set_w := None;
                        set_s := Some "failed: __OUTPUT__";
                        set_slack_webhook := Some "https://hooks.slack.com/services/X";
                        set_slack_msg := None; set_timeout := None;
                        set_d := None; set_h := None |} in
  map handler_Description (fh_handlers (register_handlers f calm World0).1)
  = [ "Execute command: logger failed";
      "Send to syslog: failed: __OUTPUT__";
      "Send to Slack: Command failed with exit code __STATUS_CODE__" +:+ nl +:+ "```"
        +:+ nl +:+ "__OUTPUT__" +:+ nl +:+ "```" ].
Proof. vm_compute. reflexivity. Qed.

(** C1, on the command line [failhook -c "echo failed" -- sh -c "exit 42"]:
    the run resolves to exit code 42, the handler is called with it, and
    then [main] returns, so that the process ends with exit status 0, not
    42. *)
Theorem main_failed_run_exit_status :
  (resolve (flag_vars {| set_c := Some "echo failed"; set_w := None; set_s := None;
                         set_slack_webhook := None; set_slack_msg := None;
                         set_timeout := None; set_d := None; set_h := None |})
     "sh" ["-c"; "exit 42"] failing_env World0).1.1.2 = 42 /\
  calls (trace (main failing_args failing_env World0).2)
  = [("Execute command: echo failed", 42, "")] /\
  (main failing_args failing_env World0).1 = Return /\
  exit_status (main failing_args failing_env World0).1 = 0.
Proof. repeat split; vm_compute; reflexivity. Qed.

(** ** More on the placeholder registry *)

Lemma visit_order_NoDup env w pr : NoDup (visit_order env w pr).*1.
Proof.
  unfold visit_order. rewrite pick_order_perm. apply NoDup_fst_map_to_list.
Qed.

Lemma substitute_one enc steps p v B : forall A,
  NoDup steps.*1 ->
  (p, v) ∈ steps ->
  (forall q, q ∈ steps.*1 -> q <> p ->
     go_strings.Contains A q = false /\ go_strings.Contains B q = false) ->
  go_strings.Replace A p (enc v) (-1) = B ->
  substitute enc steps A = B.
Proof.
  induction steps as [|[q u] steps IH]; intros A Hnd Hin Hother HAB.
  - by apply elem_of_nil in Hin.
  - cbn [substitute fold_left]. rewrite fmap_cons in Hnd. apply NoDup_cons in Hnd as [Hq Hnd].
    destruct (decide (q = p)) as [->|Hne].
    + assert (u = v) as ->.
      { apply elem_of_cons in Hin as [[=]|Hin]; [done|].
        exfalso. apply Hq. apply list_elem_of_fmap. by exists (p, v). }
      rewrite HAB. apply substitute_absent. intros q u Hqu.
      assert (q ∈ steps.*1) by (apply list_elem_of_fmap; by exists (q, u)).
      apply Hother; [rewrite fmap_cons; by right|]. intros ->. done.
    + rewrite Replace_absent by (apply Hother; [rewrite fmap_cons; left|done]).
      apply IH; try done.
      * apply elem_of_cons in Hin as [[=]|Hin]; [congruence|done].
      * intros r Hr. apply Hother. rewrite fmap_cons. by right.
Qed.

Lemma single_token_steps (enc : string -> string) pr text e o env w p fn v :
  placeholders (heap w !!! pr) !! p = Some fn ->
  (forall now, fn now e o = v) ->
  (forall q, registered w pr q -> q <> p ->
     go_strings.Contains text q = false /\
     go_strings.Contains (go_strings.Replace text p (enc v) (-1)) q = false) ->
  substitute enc (values env (S (tick w)) e o (visit_order env w pr)) text
  = go_strings.Replace text p (enc v) (-1).
Proof.
  intros Hp Hv Hother.
  apply (substitute_one enc _ p v); [| | |done].
  - rewrite values_fst. apply visit_order_NoDup.
  - apply (visit_order_visits env) in Hp.
    destruct (values_visits env (S (tick w)) e o _ _ _ Hp) as [v' Hv'].
    pose proof Hv' as Hv''. apply values_inv in Hv'' as (fn' & now & Hfn' & ->).
    apply visit_order_registered in Hfn'.
    apply (visit_order_registered env) in Hp. rewrite Hp in Hfn'. injection Hfn' as <-.
    by rewrite Hv in Hv'.
  - intros q Hq Hne. rewrite values_fst in Hq. apply visit_order_tokens in Hq. by apply Hother.
Qed.

Lemma builtin_only w pr (P : string -> Prop) :
  heap w !!! pr = {| placeholders := builtin_placeholders |} ->
  P "__STATUS_CODE__" -> P "__OUTPUT__" -> P "__TIMESTAMP__" -> P "__DATE__" ->
  P "__TIME__" ->
  forall q, registered w pr q -> P q.
Proof.
  intros H ????? q Hq. apply (registered_builtin _ _ _ H) in Hq.
  rewrite !elem_of_cons in Hq. rewrite elem_of_nil in Hq.
  intuition (subst; auto).
Qed.

(** X1: when the text and the result hold no other registered token, what
    [Replace] returns is the text with every occurrence of the one token
    replaced by the value of its function, whatever the order in which
    the map is visited. The value must not depend on the clock. *)
Theorem Replace_single_token pr text e o env w p fn v :
  placeholders (heap w !!! pr) !! p = Some fn ->
  (forall now, fn now e o = v) ->
  (forall q, registered w pr q -> q <> p ->
     go_strings.Contains text q = false /\
     go_strings.Contains (go_strings.Replace text p v (-1)) q = false) ->
  (Replace pr text e o env w).1 = go_strings.Replace text p v (-1).
Proof.
  intros Hp Hv Hother. rewrite Replace_run. cbn [fst].
  exact (single_token_steps id pr text e o env w p fn v Hp Hv Hother).
Qed.

Lemma Replace_single_token_witness :
  (Replace 0 "echo 'Exit code: __STATUS_CODE__'" 42 "boom" calm builtin_world).1
  = "echo 'Exit code: 42'".
Proof.
  rewrite (Replace_single_token 0 "echo 'Exit code: __STATUS_CODE__'" 42 "boom" calm
             builtin_world "__STATUS_CODE__" (fun _ exitCode _ => pretty exitCode) "42").
  - vm_compute. reflexivity.
  - rewrite builtin_world_registry. reflexivity.
  - intros now. vm_compute. reflexivity.
  - apply (builtin_only builtin_world 0
             (fun q => q <> "__STATUS_CODE__" -> _ q = false /\ _ q = false)
             builtin_world_registry);
      intros Hne; try (split; vm_compute; reflexivity); by destruct Hne.
Defined.

(** X2: registering a placeholder and then replacing: the new function is
    the one [Replace] uses for the token, also when the token was
    registered before (a built-in one included). *)
Theorem Register_then_Replace pr p fn v text e o env w :
  (forall now, fn now e o = v) ->
  (forall q, registered w pr q -> q <> p ->
     go_strings.Contains text q = false /\
     go_strings.Contains (go_strings.Replace text p v (-1)) q = false) ->
  (Replace pr text e o env (Register pr p fn env w).2).1
  = go_strings.Replace text p v (-1).
Proof.
  intros Hv Hother. rewrite Register_run. cbn [snd]. rewrite Replace_run. cbn [fst].
  apply (single_token_steps id pr text e o env _ p fn v); [|done|].
  - cbn [heap set_heap]. rewrite lookup_total_insert_eq. cbn [placeholders].
    apply lookup_insert_eq.
  - intros q Hq Hne. apply Hother; [|done]. revert Hq. unfold registered.
    cbn [heap set_heap]. rewrite lookup_total_insert_eq. cbn [placeholders].
    by rewrite lookup_insert_ne.
Qed.

Lemma Register_then_Replace_witness :
  (Replace 0 "Custom placeholder: __CUSTOM__" 42 "error output" calm
     (Register 0 "__CUSTOM__" (fun _ _ _ => "custom-value") calm builtin_world).2).1
  = "Custom placeholder: custom-value".
Proof.
  rewrite (Register_then_Replace 0 "__CUSTOM__" (fun _ _ _ => "custom-value")
             "custom-value" "Custom placeholder: __CUSTOM__" 42 "error output" calm
             builtin_world).
  - vm_compute. reflexivity.
  - intros now. reflexivity.
  - apply (builtin_only builtin_world 0
             (fun q => q <> "__CUSTOM__" -> _ q = false /\ _ q = false)
             builtin_world_registry);
      intros _; split; vm_compute; reflexivity.
Defined.

(** X3: a registration on one registry changes nothing of what [Replace]
    returns on another one. *)
Theorem Replace_other_registry pr pr' p fn text e o env w :
  pr <> pr' ->
  (Replace pr text e o env (Register pr' p fn env w).2).1
  = (Replace pr text e o env w).1.
Proof.
  intros Hne. rewrite Register_run. cbn [snd]. rewrite !Replace_run. cbn [fst].
  unfold visit_order. cbn [heap set_heap tick].
  rewrite lookup_total_insert_ne by done. reflexivity.
Qed.

Lemma Replace_other_registry_witness :
  (Replace 0 "__OUTPUT__" 1 "x" calm
     (Register 1 "__OUTPUT__" (fun _ _ _ => "y") calm builtin_world).2).1
  = (Replace 0 "__OUTPUT__" 1 "x" calm builtin_world).1.
Proof. apply (Replace_other_registry 0 1). lia. Defined.


(** ** The handlers of handlers.go *)

(** X5: [CommandHandler.Handle] runs the shell exactly once, on the
    command after substitution, and returns what the run returned; it
    does nothing else. *)
Theorem CommandHandler_Handle_runs_shell (h : CommandHandler) e o env w :
  let command := (Replace (ch_registry h) (ch_command h) e o env w).1 in
  trace (Handle h e o env w).2 = trace w ++ [Shell command (Handle h e o env w).1] /\
  heap (Handle h e o env w).2 = heap w.
Proof.
  cbn zeta. cbn [Handle CommandHandler_FailureHandler]. unfold CommandHandler_Handle.
  rewrite bind_run. rewrite Replace_run. cbn [fst snd]. unfold run_shell.
  cbn [fst snd trace set_trace tick set_tick heap]. split; reflexivity.
Qed.

(** X6: [WebhookHandler.Handle] sends exactly one GET request, to the URL
    after substitution with URL-encoded values. A transport error is
    returned as it is; a status of 400 or more gives an error naming
    the status; any other status gives nil. *)
Theorem WebhookHandler_Handle_gets (h : WebhookHandler) e o env w :
  let url := (ReplaceURLEncoded (wh_registry h) (wh_webhookURL h) e o env w).1 in
  exists resp,
    trace (Handle h e o env w).2 = trace w ++ [HttpGet url resp] /\
    heap (Handle h e o env w).2 = heap w /\
    (Handle h e o env w).1 =
      match resp with
      | inl err => Some err
      | inr status =>
          if 400 <=? status
          then Some (Errorf ("webhook returned status code " +:+ pretty status))
          else None
      end.
Proof.
  cbn zeta. cbn [Handle WebhookHandler_FailureHandler]. unfold WebhookHandler_Handle.
  rewrite !bind_run. rewrite ReplaceURLEncoded_run. cbn [fst snd]. unfold http_get.
  cbn [fst snd].
  match goal with |- context [http_Get env ?t ?u] => exists (http_Get env t u);
    destruct (http_Get env t u) as [err|status] end.
  - repeat split.
  - destruct (400 <=? status); repeat split.
Qed.

(** X7: [SyslogHandler.Handle] when the connection to syslog fails:
    the error is returned and nothing is written or closed. When it
    succeeds: the message after substitution is written once at level
    error, the connection is closed, and the error of the write is
    returned. *)
Theorem SyslogHandler_Handle_writes (h : SyslogHandler) e o env w :
  let message := (Replace (sy_registry h) (sy_message h) e o env w).1 in
  exists opened,
    match opened with
    | Some err =>
        (Handle h e o env w).1 = Some err /\
        trace (Handle h e o env w).2 = trace w ++ [SyslogNew (Some err)]
    | None =>
        exists written,
          (Handle h e o env w).1 = written /\
          trace (Handle h e o env w).2
          = trace w ++ [SyslogNew None; SyslogErr message written; SyslogClose]
    end.
Proof.
  cbn zeta. cbn [Handle SyslogHandler_FailureHandler]. unfold SyslogHandler_Handle.
  rewrite !bind_run. rewrite Replace_run. cbn [fst snd]. unfold syslog_new.
  cbn [fst snd].
  match goal with |- context [syslog_New env ?t] => exists (syslog_New env t);
    destruct (syslog_New env t) as [err|] end.
  - split; reflexivity.
  - rewrite !bind_run. unfold syslog_err. cbn [fst snd emit trace set_trace set_tick].
    eexists. split; [reflexivity|]. unfold mret, IO_ret. cbn [snd trace set_trace].
    rewrite <- !app_assoc. reflexivity.
Qed.

(** ** The entry of [main] *)

Lemma find_separator_shift i args :
  find_separator i args = -1 \/
  (i <= find_separator i args < i + len_list args).
Proof.
  revert i. induction args as [|a args IH]; intros i; [by left|].
  cbn [find_separator]. unfold len_list. cbn [length].
  destruct (String.eqb a "--"); [right; lia|].
  destruct (IH (i + 1)) as [->|H]; [by left|right]. unfold len_list in H. lia.
Qed.

Lemma find_separator_absent i args :
  0 <= i -> (find_separator i args = -1 <-> "--" ∉ args).
Proof.
  revert i. induction args as [|a args IH]; intros i Hi.
  - split; [intros _; apply not_elem_of_nil|done].
  - cbn [find_separator]. rewrite not_elem_of_cons.
    destruct (String.eqb_spec a "--") as [->|Hne].
    + split; [lia|]. intros [? _]. done.
    + rewrite IH by lia. split; [intros ?; split; [congruence|done]|by intros [_ ?]].
Qed.

Lemma find_separator_app i pre post :
  "--" ∉ pre ->
  find_separator i (pre ++ "--" :: post) = i + len_list pre.
Proof.
  revert i. induction pre as [|a pre IH]; intros i Hpre.
  - cbn. unfold len_list. cbn. lia.
  - apply not_elem_of_cons in Hpre as [Ha Hpre]. cbn [app find_separator].
    destruct (String.eqb_spec a "--") as [->|_]; [done|].
    rewrite IH by done. unfold len_list. cbn [length]. lia.
Qed.

(** X8: the loop that looks for the separator finds the first argument
    equal to [--]: the index it yields holds [--] and no argument before
    it does; it yields -1 exactly when no argument is [--]. *)
Theorem find_separator_first args :
  let sepIndex := find_separator 0 args in
  (sepIndex = -1 <-> "--" ∉ args) /\
  (sepIndex <> -1 ->
     0 <= sepIndex < len_list args /\
     args !! Z.to_nat sepIndex = Some "--" /\
     forall j, (j < Z.to_nat sepIndex)%nat -> args !! j <> Some "--").
Proof.
  cbv zeta. split; [by apply find_separator_absent|]. intros Hfound.
  assert (Hin : "--" ∈ args).
  { destruct (decide ("--" ∈ args)) as [|Hn]; [done|].
    by apply (find_separator_absent 0) in Hn. }
  apply list_elem_of_split_l in Hin as (pre & post & -> & Hpre).
  rewrite find_separator_app by done. unfold len_list. rewrite Z.add_0_l, Nat2Z.id.
  rewrite length_app. cbn [length]. split; [lia|]. split.
  - by rewrite list_lookup_middle.
  - intros j Hj Hl. rewrite lookup_app_l in Hl by done.
    apply Hpre. by apply list_elem_of_lookup_2 in Hl.
Qed.

Lemma prints_only_ret {A} (a : A) : prints_only (mret a).
Proof. intros env w. exists []. cbn. rewrite app_nil_r. by destruct w. Qed.


Lemma prints_only_Printf text : prints_only (Printf text).
Proof. intros env w. by exists [text]. Qed.





Lemma main_flag_stage pre cmd rest env w :
  "--" ∉ pre -> (1 <= length pre)%nat ->
  main (pre ++ "--" :: cmd :: rest) env w
  = match flag_Parse env (drop 1 pre) with
    | ParseExits code => (Exit code, w)
    | ParseFailed err =>
        (Printf ("Error parsing flags: " +:+ Error err +:+ nl);; printUsage;;
         mret (Exit 1)) env w
    | Parsed v =>
        if showUsage (flag_vars v) then (printUsage;; mret (Exit 0)) env w
        else supervise (flag_vars v) cmd rest env w
    end.
Proof.
  intros Hpre Hlen. unfold main. rewrite find_separator_app by done.
  unfold len_list. rewrite length_app. cbn [length]. rewrite Z.add_0_l.
  destruct (Z.eqb_spec (Z.of_nat (length pre)) (-1)); [lia|].
  destruct (Z.eqb_spec (Z.of_nat (length pre)) (Z.of_nat (length pre + S (S (length rest))) - 1));
    [lia|].
  cbn [orb]. destruct (Z.ltb_spec (Z.of_nat (length pre)) 1); [lia|].
  rewrite bind_run. cbn [fst snd].
  replace (Z.to_nat (Z.of_nat (length pre) - 1)) with (length pre - 1)%nat by lia.
  replace (take (length pre - 1) (drop 1 (pre ++ "--" :: cmd :: rest))) with (drop 1 pre).
  2:{ rewrite drop_app_le by lia. rewrite take_app_length'; [done|]. rewrite length_drop. lia. }
  destruct (flag_Parse env (drop 1 pre)) as [v|err|code]; try reflexivity.
  destruct (showUsage (flag_vars v)); [reflexivity|].
  replace (Z.to_nat (Z.of_nat (length pre) + 1)) with (length pre + 1)%nat by lia.
  replace (Z.to_nat (Z.of_nat (length pre) + 2)) with (length pre + 2)%nat by lia.
  rewrite lookup_app_r by lia. replace (length pre + 1 - length pre)%nat with 1%nat by lia.
  cbn [lookup list_lookup default].
  rewrite drop_app_ge by lia. replace (length pre + 2 - length pre)%nat with 2%nat by lia.
  cbn [drop].
  destruct (Z.ltb_spec (Z.of_nat (length pre) + 2) (Z.of_nat (length pre + S (S (length rest))))) as [_|Hge].
  - reflexivity.
  - assert (length rest = 0%nat) as Hr by lia. apply nil_length_inv in Hr. by subst.
Qed.



(** ** The processes [main] starts *)

Lemma spawned_app a b : spawned (a ++ b) = spawned a ++ spawned b.
Proof.
  induction a as [|ev a IH]; [reflexivity|]. destruct ev; simpl; rewrite ?IH; reflexivity.
Qed.

Lemma spawns_ret {A} (a : A) : spawns [] (mret a).
Proof. intros env w. exists []. by rewrite app_nil_r. Qed.

Lemma spawns_bind {A B} l1 l2 (m : IO A) (k : A -> IO B) :
  spawns l1 m -> (forall a, spawns l2 (k a)) -> spawns (l1 ++ l2) (m ≫= k).
Proof.
  intros Hm Hk env w. rewrite bind_run.
  destruct (Hm env w) as (n1 & H1 & C1).
  destruct (Hk (m env w).1 env (m env w).2) as (n2 & H2 & C2).
  exists (n1 ++ n2). rewrite H2, H1, spawned_app, C1, C2, app_assoc. done.
Qed.

Lemma spawns_bind_nil {A B} (m : IO A) (k : A -> IO B) :
  spawns [] m -> (forall a, spawns [] (k a)) -> spawns [] (m ≫= k).
Proof. apply (spawns_bind [] []). Qed.

Lemma spawns_pure {A} (m : IO A) :
  (forall env w, trace (m env w).2 = trace w) -> spawns [] m.
Proof. intros H env w. exists []. by rewrite H, app_nil_r. Qed.

Lemma spawns_emit ev : spawned [ev] = [] -> spawns [] (emit ev).
Proof. intros H env w. by exists [ev]. Qed.

Lemma spawns_when b m : spawns [] m -> spawns [] (when b m).
Proof. destruct b; [done|]. intros _. apply spawns_ret. Qed.

Lemma spawns_Printf text : spawns [] (Printf text).
Proof. by apply spawns_emit. Qed.
Lemma spawns_Stderr text : spawns [] (Fprintf_Stderr text).
Proof. by apply spawns_emit. Qed.
Lemma spawns_ask {A} (q : Env -> nat -> A) : spawns [] (ask q).
Proof. by apply spawns_pure. Qed.

Lemma spawns_NewPlaceholderRegistry : spawns [] NewPlaceholderRegistry.
Proof. apply spawns_pure. intros env w. by rewrite NewPlaceholderRegistry_run. Qed.

Lemma spawns_AddHandler fh h : spawns [] (AddHandler fh h).
Proof.
  unfold AddHandler. apply spawns_bind_nil; [|intros _; apply spawns_ret].
  apply spawns_when, spawns_Printf.
Qed.

Lemma spawns_register_handlers f : spawns [] (register_handlers f).
Proof.
  unfold register_handlers, NewCommandHandler, NewWebhookHandler, NewSyslogHandler,
    NewSlackHandler.
  repeat first
    [ apply spawns_NewPlaceholderRegistry
    | apply spawns_AddHandler
    | apply spawns_ret
    | match goal with |- spawns [] (if ?b then _ else _) => destruct b end
    | apply spawns_bind_nil; [|intros ?] ].
Qed.

Lemma spawns_RunCommand fh ctx c a : spawns [(c, a)] (RunCommand fh ctx c a).
Proof.
  unfold RunCommand.
  apply (spawns_bind [] [(c, a)]); [apply spawns_when, spawns_Printf|intros _].
  apply (spawns_bind [] [(c, a)]); [apply spawns_ask|intros ?].
  apply (spawns_bind [(c, a)] []); [intros env w; eexists [_]; split; reflexivity|intros ?].
  apply spawns_bind_nil; [apply spawns_ask|intros ?].
  apply spawns_bind_nil; [by apply spawns_pure|intros ?].
  apply spawns_bind_nil; [apply spawns_when, spawns_Printf|intros _].
  apply spawns_ret.
Qed.

Lemma spawns_classify ctx t run : spawns [] (classify ctx t run).
Proof.
  unfold classify. destruct run as [[e o] err].
  repeat first
    [ apply spawns_bind_nil; [|intros ?]
    | apply spawns_ask | apply spawns_Stderr | apply spawns_ret
    | match goal with |- spawns [] (if ?b then _ else _) => destruct b end ].
Qed.

Lemma spawns_resolve f cmd args : spawns [(cmd, args)] (resolve f cmd args).
Proof.
  unfold resolve.
  apply (spawns_bind [] [(cmd, args)]); [apply spawns_when, spawns_Printf|intros _].
  apply (spawns_bind [] [(cmd, args)]); [apply spawns_register_handlers|intros fh].
  apply (spawns_bind [(cmd, args)] []); [apply spawns_RunCommand|intros run].
  apply spawns_bind_nil; [apply spawns_classify|intros [e o]].
  apply spawns_ret.
Qed.

Lemma spawned_dispatch_events debug d e o oc : spawned (dispatch_events debug d e o oc) = [].
Proof. unfold dispatch_events. destruct debug, oc as [inner [err|]]; reflexivity. Qed.

Lemma spawns_HandleFailure fh e o : spawns [] (HandleFailure fh e o).
Proof.
  intros env w. destruct (HandleFailure_trace fh e o env w) as (ocs & _ & ->).
  eexists. split; [reflexivity|].
  generalize (fh_handlers fh). intros hs. revert ocs.
  induction hs as [|h hs IH]; intros [|oc ocs]; try reflexivity.
  cbn [zip_with concat]. by rewrite spawned_app, spawned_dispatch_events, IH.
Qed.

Lemma spawns_dispatch fh dbg e o : spawns [] (dispatch fh dbg e o).
Proof.
  unfold dispatch. destruct (e =? 0).
  - apply spawns_bind_nil; [apply spawns_when; by apply spawns_emit|intros _; apply spawns_ret].
  - apply spawns_bind_nil; [apply spawns_when, spawns_Printf|intros _].
    apply spawns_bind_nil; [apply spawns_HandleFailure|intros _; apply spawns_ret].
Qed.

Lemma spawns_supervise f cmd args : spawns [(cmd, args)] (supervise f cmd args).
Proof.
  unfold supervise.
  apply (spawns_bind [(cmd, args)] []); [apply spawns_resolve|intros [[fh e] o]].
  apply spawns_dispatch.
Qed.

(** X11: once the flags are parsed and [-h] is not among them, [main]
    starts exactly one process at its own level: the argument after the
    first [--], with all the arguments that follow it, in order (later
    [--] included). What handlers start is inside their calls. *)
Theorem main_starts_command_once prog flags cmd rest v env w :
  "--" ∉ prog :: flags ->
  flag_Parse env flags = Parsed v ->
  showUsage (flag_vars v) = false ->
  exists new,
    trace (main (prog :: flags ++ "--" :: cmd :: rest) env w).2 = trace w ++ new /\
    spawned new = [(cmd, rest)].
Proof.
  intros Hpre Hparse Hh.
  change (prog :: flags ++ "--" :: cmd :: rest) with ((prog :: flags) ++ "--" :: cmd :: rest).
  rewrite (main_flag_stage (prog :: flags) cmd rest env w Hpre) by (simpl; lia).
  change (drop 1 (prog :: flags)) with flags. rewrite Hparse, Hh.
  apply spawns_supervise.
Qed.

Lemma main_starts_command_once_witness :
  exists new,
    trace (main failing_args failing_env World0).2 = trace World0 ++ new /\
    spawned new = [("sh", ["-c"; "exit 42"])].
Proof.
  apply (main_starts_command_once "failhook" ["-c"; "echo failed"] "sh" ["-c"; "exit 42"]
           {| set_c := Some "echo failed"; set_w := None; set_s := None;
              set_slack_webhook := None; set_slack_msg := None;
              set_timeout := None; set_d := None; set_h := None |} failing_env World0).
  - intros H. by repeat (apply elem_of_cons in H as [H|H]; [done|]); apply elem_of_nil in H.
  - reflexivity.
  - reflexivity.
Defined.

(** ** What the run resolves to *)

Lemma resolve_result f cmd args env w :
  exists n1 n2,
    let ctx := make_context (timeout f) in
    let res := cmd_Run env n1 ctx cmd args in
    ((resolve f cmd args env w).1.1.2, (resolve f cmd args env w).1.2)
    = if is_DeadlineExceeded (ctx_Err env n2 ctx)
      then (124, "Command timed out after " +:+ pretty (timeout f) +:+ " seconds")
      else if is_Canceled (ctx_Err env (S n2) ctx) && bool_decide (proc_err res <> None)
           then (130, "Command was interrupted")
           else (exit_code_of (proc_err res),
                 go_strings.TrimSpace (proc_stdout res +:+ proc_stderr res)).
Proof.
  unfold resolve. rewrite !bind_run.
  set (w1 := (when (debug f) _ env w).2).
  set (w2 := (register_handlers f env w1).2).
  set (fh := (register_handlers f env w1).1).
  pose proof (RunCommand_run fh (make_context (timeout f)) cmd args env w2) as Hrun.
  cbv zeta in Hrun.
  set (w3 := (RunCommand fh (make_context (timeout f)) cmd args env w2).2).
  exists (S (tick w2)), (tick w3). cbv zeta.
  rewrite Hrun.
  pose proof (classify_run (make_context (timeout f)) (timeout f)
                (exit_code_of (proc_err (cmd_Run env (S (tick w2)) (make_context (timeout f)) cmd args)))
                (go_strings.TrimSpace
                   (proc_stdout (cmd_Run env (S (tick w2)) (make_context (timeout f)) cmd args)
                    +:+ proc_stderr (cmd_Run env (S (tick w2)) (make_context (timeout f)) cmd args)))
                (proc_err (cmd_Run env (S (tick w2)) (make_context (timeout f)) cmd args))
                env w3) as Hc.
  rewrite <- Hc.
  destruct (classify _ _ _ env w3) as [[e o] w4]. reflexivity.
Qed.

(** X12: when the context reads [DeadlineExceeded] after the run, the
    handlers the flags configure are each called once, in order, with
    exit code 124 and the timeout message as output, whatever the
    monitored command printed and returned (a zero exit code included);
    [main] then returns. *)
Theorem supervise_timeout f cmd args env w :
  (forall n c, ctx_Err env n c = DeadlineExceeded) ->
  let message := "Command timed out after " +:+ pretty (timeout f) +:+ " seconds" in
  (supervise f cmd args env w).1 = Return /\
  exists new,
    trace (supervise f cmd args env w).2 = trace w ++ new /\
    calls new = map (fun d => (d, 124, message)) (configured_descriptions f).
Proof.
  intros Hctx. cbv zeta.
  destruct (resolve_result f cmd args env w) as (n1 & n2 & Hres). cbv zeta in Hres.
  rewrite Hctx in Hres. cbn [is_DeadlineExceeded] in Hres. injection Hres as He Ho.
  split.
  - pose proof (supervise_exit_status f cmd args env w) as [H _]. cbv zeta in H.
    by rewrite H, He.
  - destruct (supervise_trace f cmd args env w) as (new & Hnew & Hcalls).
    cbv zeta in Hcalls. rewrite He, Ho in Hcalls. by exists new.
Qed.

Lemma supervise_timeout_witness :
  (supervise (flag_vars no_flags) "true" [] (with_ctx DeadlineExceeded calm) World0).1
  = Return.
Proof.
  apply (supervise_timeout (flag_vars no_flags) "true" [] (with_ctx DeadlineExceeded calm)
           World0).
  intros n c. reflexivity.
Defined.

Lemma ExitStatus_range status : -1 <= go_syscall.ExitStatus status <= 255.
Proof.
  unfold go_syscall.ExitStatus. destruct (negb _); [lia|].
  change 255 with (Z.ones 8). rewrite Z.land_ones by lia.
  pose proof (Z.mod_pos_bound (Z.shiftr status go_syscall.shift) (2 ^ 8)) as H.
  change (2 ^ 8) with 256 in *. change (Z.ones 8) with 255. lia.
Qed.

Lemma exit_code_of_range err : -1 <= exit_code_of err <= 255.
Proof.
  destruct err as [[[status|] msg|msg]|]; cbn [exit_code_of]; try lia.
  apply ExitStatus_range.
Qed.

(** X13: the exit code [RunCommand] returns lies between -1 and 255,
    whatever the wait status of the child; so does the exit code the run
    resolves to in [main], which is what the handlers receive. *)
Theorem exit_code_range fh ctx f cmd args env w :
  -1 <= (RunCommand fh ctx cmd args env w).1.1.1 <= 255 /\
  -1 <= (resolve f cmd args env w).1.1.2 <= 255.
Proof.
  split.
  - rewrite RunCommand_run. cbn [fst]. apply exit_code_of_range.
  - destruct (resolve_result f cmd args env w) as (n1 & n2 & Hres). cbv zeta in Hres.
    destruct (is_DeadlineExceeded _); [injection Hres as -> _; lia|].
    destruct (_ && _); injection Hres as -> _; [lia|]. apply exit_code_of_range.
Qed.

(** X14: the deadline of the context. No deadline when the timeout is
    zero or negative; a deadline of [timeout] seconds up to 9223372036
    seconds; beyond that the multiplication by [time.Second] overflows
    and the deadline is not [timeout] seconds: for the next value it is
    negative, a deadline already past. *)
Theorem make_context_deadline timeout :
  (timeout <= 0 -> ctx_deadline (make_context timeout) = None) /\
  (0 < timeout <= 9223372036 ->
     ctx_deadline (make_context timeout) = Some (timeout * 1000000000)) /\
  (9223372036 < timeout ->
     exists d, ctx_deadline (make_context timeout) = Some d /\
               d <> timeout * 1000000000 /\ - 2^63 <= d < 2^63) /\
  ctx_deadline (make_context 9223372037) = Some (-9223372036709551616).
Proof.
  assert (E63 : 2 ^ 63 = 9223372036854775808) by reflexivity.
  assert (E64 : 2 ^ 64 = 18446744073709551616) by reflexivity.
  unfold make_context. split; [|split; [|split]].
  - intros H. destruct (Z.ltb_spec 0 timeout); [lia|reflexivity].
  - intros H. destruct (Z.ltb_spec 0 timeout); [|lia]. cbn [ctx_deadline]. f_equal.
    unfold wrap64. rewrite E63, E64. rewrite Z.mod_small; lia.
  - intros H. destruct (Z.ltb_spec 0 timeout); [|lia]. cbn [ctx_deadline].
    eexists. split; [reflexivity|]. unfold wrap64.
    pose proof (Z.mod_pos_bound (timeout * 1000000000 + 2 ^ 63) (2 ^ 64)) as Hm.
    rewrite E63, E64 in *. lia.
  - reflexivity.
Qed.

(** ** Registration *)

Lemma AddHandler_run fh h env w :
  AddHandler fh h env w
  = ({| fh_handlers := fh_handlers fh ++ [h]; fh_debug := fh_debug fh |},
     set_trace (trace w ++ (if fh_debug fh
                            then [Stdout ("Added handler: " +:+ handler_Description h +:+ nl)]
                            else [])) w).
Proof.
  unfold AddHandler. rewrite bind_run. cbn [fh_debug]. rewrite when_run.
  destruct (fh_debug fh); cbn; [reflexivity|]. rewrite app_nil_r. by destruct w.
Qed.

Lemma add_handlers_run hs : forall fh env w,
  add_handlers fh hs env w
  = ({| fh_handlers := fh_handlers fh ++ hs; fh_debug := fh_debug fh |},
     set_trace (trace w ++ (if fh_debug fh
                            then map (fun h => Stdout ("Added handler: "
                                                       +:+ handler_Description h +:+ nl)) hs
                            else [])) w).
Proof.
  unfold add_handlers. induction hs as [|h hs IH]; intros fh env w.
  - destruct fh as [hs0 [|]], w; cbn; rewrite !app_nil_r; reflexivity.
  - cbn [for_range_acc]. rewrite bind_run, AddHandler_run. cbn [fst snd]. rewrite IH.
    cbn [fh_handlers fh_debug trace set_trace]. rewrite <- !app_assoc. cbn [app].
    f_equal. destruct (fh_debug fh); cbn; rewrite <- ?app_assoc; reflexivity.
Qed.

(** X15: handlers added with [AddHandler] one after the other are kept in
    the order of the additions, after those already there; in debug mode
    each addition prints one line naming the handler, otherwise nothing
    is printed. A later [HandleFailure] calls all of them once, in that
    order. *)
Theorem AddHandler_keeps_order fh hs env w :
  fh_handlers (add_handlers fh hs env w).1 = fh_handlers fh ++ hs /\
  fh_debug (add_handlers fh hs env w).1 = fh_debug fh /\
  (add_handlers fh hs env w).2
  = set_trace (trace w ++ (if fh_debug fh
                           then map (fun h => Stdout ("Added handler: "
                                                      +:+ handler_Description h +:+ nl)) hs
                           else [])) w /\
  forall e o env' w', exists new,
    trace (HandleFailure (add_handlers fh hs env w).1 e o env' w').2 = trace w' ++ new /\
    calls new = map (fun h => (handler_Description h, e, o)) (fh_handlers fh ++ hs).
Proof.
  rewrite add_handlers_run. cbn [fst snd fh_handlers fh_debug].
  repeat split. intros e o env' w'.
  destruct (HandleFailure_trace {| fh_handlers := fh_handlers fh ++ hs;
                                   fh_debug := fh_debug fh |} e o env' w')
    as (ocs & Hlen & Hocs).
  eexists. split; [exact Hocs|]. by apply calls_dispatched.
Qed.

Lemma NewCommandHandler_run c env w :
  NewCommandHandler c env w
  = ({| ch_command := c; ch_registry := next w |}, (NewPlaceholderRegistry env w).2).
Proof. unfold NewCommandHandler. by rewrite bind_run, NewPlaceholderRegistry_run. Qed.

Lemma NewWebhookHandler_run u env w :
  NewWebhookHandler u env w
  = ({| wh_webhookURL := u; wh_registry := next w |}, (NewPlaceholderRegistry env w).2).
Proof. unfold NewWebhookHandler. by rewrite bind_run, NewPlaceholderRegistry_run. Qed.

Lemma NewSyslogHandler_run m env w :
  NewSyslogHandler m env w
  = ({| sy_message := m; sy_registry := next w |}, (NewPlaceholderRegistry env w).2).
Proof. unfold NewSyslogHandler. by rewrite bind_run, NewPlaceholderRegistry_run. Qed.

Lemma NewSlackHandler_run u m env w :
  NewSlackHandler u m [] env w
  = ({| sl_webhookURL := u; sl_message := m; sl_channel := ""; sl_username := "FailHook";
        sl_registry := next w |}, (NewPlaceholderRegistry env w).2).
Proof. unfold NewSlackHandler. by rewrite bind_run, NewPlaceholderRegistry_run. Qed.

(** One step of the registration, on the heap. *)
Lemma step_heap {H} `{FailureHandler H} (b : bool) (mk : IO H) fh env w :
  (mk env w).2 = (NewPlaceholderRegistry env w).2 ->
  let r := (if b then h ← mk; AddHandler fh (Dyn h) else mret fh) env w in
  next r.2 = (if b then S (next w) else next w) /\
  heap r.2 = (if b then <[next w := {| placeholders := builtin_placeholders |}]> (heap w)
              else heap w).
Proof.
  intros Hmk. destruct b; cbv zeta; [|done].
  rewrite bind_run, AddHandler_run, Hmk, NewPlaceholderRegistry_run. done.
Qed.

Lemma step_full {H} `{FailureHandler H} (b : bool) (mk : IO H) (rec : nat -> H) fh env w :
  mk env w = (rec (next w), (NewPlaceholderRegistry env w).2) ->
  let r := (if b then h ← mk; AddHandler fh (Dyn h) else mret fh) env w in
  fh_handlers r.1 = fh_handlers fh ++ (if b then [Dyn (rec (next w))] else []) /\
  next r.2 = (if b then S (next w) else next w) /\
  heap r.2 = (if b then <[next w := {| placeholders := builtin_placeholders |}]> (heap w)
              else heap w).
Proof.
  intros Hmk. destruct b; cbv zeta.
  - rewrite bind_run, AddHandler_run, Hmk, NewPlaceholderRegistry_run. done.
  - cbn. by rewrite app_nil_r.
Qed.

(** X16: the handlers [main] registers own registries of their own: the
    registries are pairwise distinct, each was created during the
    registration and holds exactly the built-in placeholders, and the
    registries that existed before are left as they were. *)
Theorem register_handlers_registries f env w :
  let w' := (register_handlers f env w).2 in
  exists a b c d,
    fh_handlers (register_handlers f env w).1 = configured f a b c d /\
    NoDup (configured_registries f a b c d) /\
    (forall x, x ∈ configured_registries f a b c d ->
       (next w <= x < next w')%nat /\
       heap w' !!! x = {| placeholders := builtin_placeholders |}) /\
    (forall x, (x < next w)%nat -> heap w' !! x = heap w !! x).
Proof.
  cbv zeta. unfold register_handlers. rewrite !bind_run.
  destruct (step_full (negb (String.eqb (command f) "")) (NewCommandHandler (command f))
              (fun a => {| ch_command := command f; ch_registry := a |})
              (NewFailHook (debug f)) env w (NewCommandHandler_run _ _ _))
    as (Hh1 & Hn1 & Hp1).
  cbv zeta in Hh1, Hn1, Hp1.
  match type of Hn1 with next (?r).2 = _ => set (s1 := r) in * end.
  destruct (step_full (negb (String.eqb (webhook f) "")) (NewWebhookHandler (webhook f))
              (fun a => {| wh_webhookURL := webhook f; wh_registry := a |})
              s1.1 env s1.2 (NewWebhookHandler_run _ _ _))
    as (Hh2 & Hn2 & Hp2).
  cbv zeta in Hh2, Hn2, Hp2.
  match type of Hn2 with next (?r).2 = _ => set (s2 := r) in * end.
  destruct (step_full (negb (String.eqb (syslogMsg f) "")) (NewSyslogHandler (syslogMsg f))
              (fun a => {| sy_message := syslogMsg f; sy_registry := a |})
              s2.1 env s2.2 (NewSyslogHandler_run _ _ _))
    as (Hh3 & Hn3 & Hp3).
  cbv zeta in Hh3, Hn3, Hp3.
  match type of Hn3 with next (?r).2 = _ => set (s3 := r) in * end.
  destruct (step_full (negb (String.eqb (slackWebhook f) "")) (NewSlackHandler (slackWebhook f) (slackMsg f) [])
              (fun a => {| sl_webhookURL := slackWebhook f; sl_message := slackMsg f;
                           sl_channel := ""; sl_username := "FailHook"; sl_registry := a |})
              s3.1 env s3.2 (NewSlackHandler_run _ _ _ _))
    as (Hh4 & Hn4 & Hp4).
  cbv zeta in Hh4, Hn4, Hp4.
  match type of Hn4 with next (?r).2 = _ => set (s4 := r) in * end.
  exists (next w), (next s1.2), (next s2.2), (next s3.2).
  rewrite Hh4, Hh3, Hh2, Hh1, Hp4, Hp3, Hp2, Hp1, Hn4.
  unfold configured, configured_registries. cbn [NewFailHook fh_handlers app].
  clearbody s1 s2 s3 s4. clear Hh1 Hh2 Hh3 Hh4 Hp1 Hp2 Hp3 Hp4 Hn4.
  destruct (String.eqb (command f) ""), (String.eqb (webhook f) ""),
    (String.eqb (syslogMsg f) ""), (String.eqb (slackWebhook f) "");
    cbn [negb app] in *; rewrite ?Hn3, ?Hn2, ?Hn1;
    (split; [reflexivity|]);
    (split; [repeat (apply NoDup_cons; split; [rewrite ?elem_of_cons, elem_of_nil; lia|]);
             apply NoDup_nil_2|]);
    (split; [intros x Hx; rewrite ?elem_of_cons, elem_of_nil in Hx;
             (split; [lia|]);
             repeat match goal with
                    | |- <[?k := _]> _ !!! x = _ =>
                        destruct (decide (x = k)) as [->|?];
                        [apply lookup_total_insert_eq
                        |rewrite lookup_total_insert_ne by done]
                    end;
             exfalso; intuition
            | intros x Hx; rewrite ?lookup_insert_ne by lia; reflexivity]).
  all: exfalso; tauto.
Qed.

(** ** The debug mode *)

Lemma without_stdout_app a b : without_stdout (a ++ b) = without_stdout a ++ without_stdout b.
Proof.
  induction a as [|ev a IH]; [reflexivity|]. destruct ev; simpl; rewrite ?IH; reflexivity.
Qed.

Lemma alike_ret {A B} (Q : A -> B -> Prop) a b : Q a b -> alike Q (mret a) (mret b).
Proof. intros H env w w' Hw. done. Qed.

Lemma alike_bind {A B A' B'} (Q : A -> B -> Prop) (Q' : A' -> B' -> Prop)
    (m : IO A) (m' : IO B) (k : A -> IO A') (k' : B -> IO B') :
  alike Q m m' -> (forall a b, Q a b -> alike Q' (k a) (k' b)) ->
  alike Q' (m ≫= k) (m' ≫= k').
Proof.
  intros Hm Hk env w w' Hw. rewrite !bind_run.
  destruct (Hm env w w' Hw) as [Hq Hw1]. by apply Hk.
Qed.

Lemma alike_self {A} (m : IO A) :
  (forall env w w', same_but_stdout w w' ->
     (m env w).1 = (m env w').1 /\ same_but_stdout (m env w).2 (m env w').2) ->
  alike eq m m.
Proof. done. Qed.

Lemma alike_emit ev : alike eq (emit ev) (emit ev).
Proof.
  intros env w w' (Ht & Hh & Hn & Htr). split; [done|]. repeat split; try done.
  cbn. by rewrite !without_stdout_app, Htr.
Qed.

Lemma alike_prints b b' text text' :
  alike eq (when b (Printf text)) (when b' (Printf text')).
Proof.
  intros env w w' (Ht & Hh & Hn & Htr). split; [by destruct (when _ _ _ _).1, (when _ _ _ _).1|].
  rewrite !when_run.
  destruct b, b'; repeat split; try done; cbn;
    rewrite ?without_stdout_app; cbn; rewrite ?app_nil_r; done.
Qed.

Lemma alike_ask {A} (q : Env -> nat -> A) : alike eq (ask q) (ask q).
Proof.
  intros env w w' (Ht & Hh & Hn & Htr). cbn. rewrite Ht. done.
Qed.

Lemma alike_run_command ctx c a : alike eq (run_command ctx c a) (run_command ctx c a).
Proof.
  intros env w w' (Ht & Hh & Hn & Htr). cbn. rewrite Ht. split; [done|].
  repeat split; try done. cbn. by rewrite !without_stdout_app, Htr.
Qed.

Lemma alike_NewPlaceholderRegistry : alike eq NewPlaceholderRegistry NewPlaceholderRegistry.
Proof.
  intros env w w' (Ht & Hh & Hn & Htr). rewrite !NewPlaceholderRegistry_run. cbn.
  rewrite Hn, Hh. done.
Qed.

(** Two [FailHook]s with the same handlers. *)
Lemma alike_AddHandler fh fh' h :
  fh_handlers fh = fh_handlers fh' ->
  alike (fun x y => fh_handlers x = fh_handlers y) (AddHandler fh h) (AddHandler fh' h).
Proof.
  intros Hfh env w w' (Ht & Hh & Hn & Htr). rewrite !AddHandler_run. cbn [fst snd fh_handlers].
  split; [by rewrite Hfh|]. repeat split; try done. cbn.
  rewrite !without_stdout_app.
  destruct (fh_debug fh), (fh_debug fh'); cbn; rewrite ?app_nil_r; done.
Qed.

Lemma alike_step {H} `{FailureHandler H} (b : bool) (rec : nat -> H) fh fh' :
  fh_handlers fh = fh_handlers fh' ->
  alike (fun x y => fh_handlers x = fh_handlers y)
    (if b then h ← (registry ← NewPlaceholderRegistry; mret (rec registry));
               AddHandler fh (Dyn h) else mret fh)
    (if b then h ← (registry ← NewPlaceholderRegistry; mret (rec registry));
               AddHandler fh' (Dyn h) else mret fh').
Proof.
  intros Hfh. destruct b; [|by apply alike_ret].
  eapply alike_bind with (Q := eq).
  - eapply alike_bind; [apply alike_NewPlaceholderRegistry|].
    intros a b ->. by apply alike_ret.
  - intros a b ->. by apply alike_AddHandler.
Qed.

Lemma alike_register_handlers b b' f :
  alike (fun x y => fh_handlers x = fh_handlers y)
    (register_handlers (with_debug b f)) (register_handlers (with_debug b' f)).
Proof.
  unfold register_handlers. cbn [with_debug command webhook syslogMsg slackWebhook slackMsg debug].
  eapply alike_bind; [apply (alike_step _ (fun a => {| ch_command := _; ch_registry := a |})); done|].
  intros fh1 fh1' H1.
  eapply alike_bind; [apply (alike_step _ (fun a => {| wh_webhookURL := _; wh_registry := a |})); done|].
  intros fh2 fh2' H2.
  eapply alike_bind; [apply (alike_step _ (fun a => {| sy_message := _; sy_registry := a |})); done|].
  intros fh3 fh3' H3.
  apply (alike_step _ (fun a => {| sl_webhookURL := _; sl_message := _; sl_channel := "";
                                   sl_username := "FailHook"; sl_registry := a |})); done.
Qed.

Lemma alike_RunCommand fh fh' ctx c a :
  alike eq (RunCommand fh ctx c a) (RunCommand fh' ctx c a).
Proof.
  unfold RunCommand.
  eapply alike_bind; [apply alike_prints|intros _ _ _].
  eapply alike_bind; [apply alike_ask|intros ? ? ->].
  eapply alike_bind; [apply alike_run_command|intros ? ? ->].
  eapply alike_bind; [apply alike_ask|intros ? ? ->].
  eapply alike_bind; [apply alike_self; intros env w w' Hw; done|intros ? ? ->].
  eapply alike_bind; [apply alike_prints|intros _ _ _].
  by apply alike_ret.
Qed.

Lemma alike_classify ctx t run : alike eq (classify ctx t run) (classify ctx t run).
Proof.
  unfold classify. destruct run as [[e o] err].
  eapply alike_bind; [apply alike_ask|intros ? c ->].
  destruct (is_DeadlineExceeded c).
  - eapply alike_bind; [apply alike_emit|intros _ _ _]. by apply alike_ret.
  - eapply alike_bind; [apply alike_ask|intros ? c' ->].
    destruct (_ && _); [|by apply alike_ret].
    eapply alike_bind; [apply alike_emit|intros _ _ _]. by apply alike_ret.
Qed.

Lemma alike_handler_Handle h e o : alike eq (handler_Handle h e o) (handler_Handle h e o).
Proof.
  intros env w w' (Ht & Hh & Hn & Htr). unfold handler_Handle. destruct h as [H inst h].
  assert (Hw : set_trace [] w = set_trace [] w').
  { destruct w, w'; cbn in *; by subst. }
  rewrite Hw. destruct (Handle h e o env (set_trace [] w')) as [res w2].
  split; [done|]. repeat split; try done. cbn. by rewrite !without_stdout_app, Htr.
Qed.

Lemma alike_HandleFailure fh fh' e o :
  fh_handlers fh = fh_handlers fh' ->
  alike eq (HandleFailure fh e o) (HandleFailure fh' e o).
Proof.
  intros Hfh. unfold HandleFailure. rewrite Hfh. clear Hfh.
  generalize (fh_handlers fh'). intros hs.
  induction hs as [|h hs IH]; [by apply alike_ret|].
  cbn [for_range]. eapply alike_bind; [|intros _ _ _; apply IH].
  eapply alike_bind; [apply alike_prints|intros _ _ _].
  eapply alike_bind; [apply alike_handler_Handle|intros ? err ->].
  destruct err; [apply alike_emit|by apply alike_ret].
Qed.

Lemma alike_dispatch fh fh' b b' e o :
  fh_handlers fh = fh_handlers fh' ->
  alike eq (dispatch fh b e o) (dispatch fh' b' e o).
Proof.
  intros Hfh. unfold dispatch. destruct (e =? 0).
  - eapply alike_bind; [apply alike_prints|intros _ _ _]. by apply alike_ret.
  - eapply alike_bind; [apply alike_prints|intros _ _ _].
    eapply alike_bind; [by apply alike_HandleFailure|intros _ _ _]. by apply alike_ret.
Qed.

Lemma alike_supervise b b' f cmd args :
  alike eq (supervise (with_debug b f) cmd args) (supervise (with_debug b' f) cmd args).
Proof.
  unfold supervise, resolve. cbn [with_debug timeout debug].
  eapply alike_bind with (Q := fun x y => fh_handlers x.1.1 = fh_handlers y.1.1 /\
                                         x.1.2 = y.1.2 /\ x.2 = y.2).
  - eapply alike_bind; [apply alike_prints|intros _ _ _].
    eapply alike_bind; [apply (alike_register_handlers b b' f)|intros fh fh' Hfh].
    eapply alike_bind; [apply alike_RunCommand|intros ? run ->].
    eapply alike_bind; [apply alike_classify|intros ? [e o] ->].
    by apply alike_ret.
  - intros [[fh e] o] [[fh' e'] o'] (Hfh & He & Ho). cbn in Hfh, He, Ho. subst.
    by apply alike_dispatch.
Qed.

(** X17: the debug mode changes nothing but what is printed on the
    standard output: with and without [-d], [main] from the parsed flags
    on ends the same way, starts the same process, makes the same calls
    of handlers with the same effects and results, writes the same on the
    standard error, and leaves the same registries. *)
Theorem debug_changes_only_stdout b b' f cmd args env w :
  (supervise (with_debug b f) cmd args env w).1
  = (supervise (with_debug b' f) cmd args env w).1 /\
  same_but_stdout (supervise (with_debug b f) cmd args env w).2
                  (supervise (with_debug b' f) cmd args env w).2.
Proof. by apply alike_supervise. Qed.

(** ** The JSON the Slack handler sends *)

Lemma byte_val_range c : 0 <= byte_val c < 256.
Proof.
  unfold byte_val. pose proof (N_ascii_bounded c) as H. lia.
Qed.

Lemma byte_val_chr b : 0 <= b < 256 -> byte_val (byte_chr b) = b.
Proof.
  intros Hb. unfold byte_val, byte_chr. rewrite N_ascii_embedding by lia. lia.
Qed.

Lemma hex_digit d : 0 <= d < 16 -> is_hex_digit (byte_val (go_json.hex d)) = true.
Proof.
  intros Hd. unfold go_json.hex, is_hex_digit.
  destruct (Z.ltb_spec d 10); rewrite byte_val_chr by lia.
  - apply orb_true_iff; left. apply orb_true_iff; left. apply andb_true_iff. lia.
  - apply orb_true_iff; left. apply orb_true_iff; right. apply andb_true_iff. lia.
Qed.

Lemma json_tail_raw c X :
  32 <= byte_val c -> byte_val c <> 34 -> byte_val c <> 92 ->
  json_string_tail (String c X) = json_string_tail X.
Proof.
  intros H1 H2 H3. cbn [json_string_tail]. cbv zeta.
  destruct (Z.eqb_spec (byte_val c) 34); [done|].
  destruct (Z.eqb_spec (byte_val c) 92); [done|].
  destruct (Z.ltb_spec (byte_val c) 32); [lia|done].
Qed.

Lemma json_tail_high chunk X :
  all_chars (fun c => 128 <=? byte_val c) chunk = true ->
  json_string_tail (chunk +:+ X) = json_string_tail X.
Proof.
  induction chunk as [|c chunk IH]; [done|]. cbn [all_chars]. intros [Hc Hr]%andb_true_iff.
  rewrite append_cons, json_tail_raw by lia. by apply IH.
Qed.

Lemma json_tail_u h1 h2 h3 h4 X :
  is_hex_digit (byte_val h1) = true -> is_hex_digit (byte_val h2) = true ->
  is_hex_digit (byte_val h3) = true -> is_hex_digit (byte_val h4) = true ->
  json_string_tail (String "\" (String "u" (String h1 (String h2 (String h3 (String h4 X))))))
  = json_string_tail X.
Proof.
  intros H1 H2 H3 H4. cbn [json_string_tail]. cbv zeta.
  change (byte_val "\") with 92. change (byte_val "u") with 117.
  cbn [Z.eqb Pos.eqb orb]. by rewrite H1, H2, H3, H4.
Qed.

Lemma json_tail_escape c X :
  (let e := byte_val c in
   (e =? 34) || (e =? 92) || (e =? 47) || (e =? 98) || (e =? 102)
   || (e =? 110) || (e =? 114) || (e =? 116)) = true ->
  json_string_tail (String "\" (String c X)) = json_string_tail X.
Proof.
  cbv zeta. intros He. cbn [json_string_tail]. cbv zeta.
  change (byte_val "\") with 92. cbn [Z.eqb Pos.eqb]. by rewrite He.
Qed.

Lemma json_tail_escape_ascii ch X :
  byte_val ch < 128 -> go_json.htmlSafeSet (byte_val ch) = false ->
  json_string_tail (go_json.escape_ascii ch +:+ X) = json_string_tail X.
Proof.
  intros Hlt Hsafe. unfold go_json.escape_ascii. pose proof (byte_val_range ch) as Hr.
  destruct ((byte_val ch =? 92) || (byte_val ch =? 34)) eqn:E1.
  { rewrite !append_cons, append_nil_l.
    apply json_tail_escape. cbv zeta.
    apply orb_true_iff in E1 as [->%Z.eqb_eq| ->%Z.eqb_eq]; reflexivity. }
  repeat (match goal with
          | |- context [if byte_val ch =? ?k then _ else _] =>
              destruct (Z.eqb_spec (byte_val ch) k); cbv iota;
              [rewrite !append_cons, append_nil_l; apply json_tail_escape; reflexivity|]
          end).
  rewrite append_assoc'. rewrite !append_cons, !append_nil_l.
  apply json_tail_u; try reflexivity; apply hex_digit.
  - rewrite Z.shiftr_div_pow2 by lia. change (2 ^ 4) with 16.
    split; [apply Z.div_pos; lia|apply Z.div_lt_upper_bound; lia].
  - change 15 with (Z.ones 4). rewrite Z.land_ones by lia. apply Z.mod_pos_bound. lia.
Qed.

Lemma first_high b : 128 <= b -> go_utf8.first b = 241 \/ go_utf8.first b < 240.
Proof.
  intros Hb. unfold go_utf8.first.
  repeat match goal with |- context [if ?c then _ else _] => destruct c eqn:? end;
    lia.
Qed.

Lemma acceptRanges_low i : 128 <= (go_utf8.acceptRanges i).1.
Proof.
  unfold go_utf8.acceptRanges.
  repeat match goal with |- context [if ?c then _ else _] => destruct c end; cbn; lia.
Qed.

(** A rune of more than one byte is made of bytes of 128 and more. *)
Lemma DecodeRune_high ch rest c size :
  128 <= byte_val ch ->
  go_utf8.DecodeRuneInString (String ch rest) = (c, size) ->
  (c =? go_utf8.RuneError) && (size =? 1) = false ->
  all_chars (fun c => 128 <=? byte_val c) (slice_to (String ch rest) size) = true.
Proof.
  intros Hhi Hdec Hne. unfold go_utf8.DecodeRuneInString in Hdec.
  pose proof (first_high _ Hhi) as Hx.
  pose proof (acceptRanges_low (Z.shiftr (go_utf8.first (byte_val ch)) 4)) as Ha.
  cbv zeta in Hdec.
  generalize dependent (go_utf8.acceptRanges (Z.shiftr (go_utf8.first (byte_val ch)) 4)).
  intros accept Hdec Ha.
  generalize dependent (go_utf8.first (byte_val ch)). intros x Hx Hdec.
  unfold go_utf8.locb, go_utf8.hicb in Hdec.
  repeat match type of Hdec with
         | context [if ?b then _ else _] => destruct b eqn:?
         | context [match ?t with "" => _ | String _ _ => _ end] => destruct t
         end;
    injection Hdec as <- <-;
    try (vm_compute in Hne; discriminate Hne);
    repeat match goal with
           | H : (_ || _) = false |- _ => apply orb_false_iff in H as [? ?]
           | H : (_ <? _) = false |- _ => apply Z.ltb_ge in H
           | H : (_ <=? _) = true |- _ => apply Z.leb_le in H
           | H : (_ =? _) = false |- _ => apply Z.eqb_neq in H
           end;
    try (exfalso; lia);
    unfold slice_to;
    try change (Z.to_nat 2) with 2%nat; try change (Z.to_nat 3) with 3%nat;
    try change (Z.to_nat 4) with 4%nat;
    cbn [take_n all_chars]; rewrite ?andb_true_iff, ?Z.leb_le; repeat split; lia.
Qed.

Lemma string_body_valid fuel : forall src X,
  json_string_tail (go_json.string_body fuel src +:+ X) = json_string_tail X.
Proof.
  induction fuel as [|fuel IH]; intros src X; [reflexivity|].
  destruct src as [|ch rest]; [reflexivity|]. cbn [go_json.string_body]. cbv zeta.
  pose proof (byte_val_range ch) as Hr.
  destruct (Z.ltb_spec (byte_val ch) go_utf8.RuneSelf) as [Hlt|Hge].
  - rewrite append_assoc'. destruct (go_json.htmlSafeSet (byte_val ch)) eqn:Hsafe.
    + rewrite append_cons, append_nil_l. rewrite json_tail_raw; [apply IH| | |];
        unfold go_json.htmlSafeSet in Hsafe;
        apply andb_true_iff in Hsafe as [H32 Hn]; apply Z.leb_le in H32;
        apply negb_true_iff in Hn; rewrite !orb_false_iff in Hn;
        destruct Hn as [[[[]]]];
        repeat match goal with H : (_ =? _) = false |- _ => apply Z.eqb_neq in H end; lia.
    + rewrite json_tail_escape_ascii by done. apply IH.
  - destruct (go_utf8.DecodeRuneInString (String ch rest)) as [c size] eqn:Hdec.
    destruct ((c =? go_utf8.RuneError) && (size =? 1)) eqn:Herr.
    + rewrite append_assoc'.
      rewrite !append_cons, append_nil_l. rewrite json_tail_u by reflexivity. apply IH.
    + destruct ((c =? 8232) || (c =? 8233)) eqn:Hls.
      * rewrite !append_assoc'.
        rewrite !append_cons, !append_nil_l. rewrite json_tail_u; try reflexivity; [apply IH|].
        apply orb_true_iff in Hls as [->%Z.eqb_eq| ->%Z.eqb_eq]; reflexivity.
      * rewrite append_assoc'. rewrite json_tail_high; [apply IH|].
        apply (DecodeRune_high ch rest c size); [unfold go_utf8.RuneSelf in Hge; lia|done|done].
Qed.

Lemma appendString_valid src X : json_string (go_json.appendString src +:+ X) = Some X.
Proof.
  unfold go_json.appendString, dq. rewrite !append_assoc', append_cons, append_nil_l.
  cbn [json_string]. change (byte_val "034") with 34. cbn [Z.eqb Pos.eqb].
  rewrite string_body_valid. rewrite append_cons, append_nil_l. reflexivity.
Qed.

Lemma encode_field_valid f X : json_member (go_json.encode_field f +:+ X) = Some X.
Proof.
  unfold go_json.encode_field, json_member. rewrite !append_assoc'.
  rewrite appendString_valid. rewrite append_cons, append_nil_l.
  change (byte_val ":") with 58. cbn [Z.eqb Pos.eqb]. apply appendString_valid.
Qed.

Lemma Join_members_tail e es :
  go_strings.Join (e :: es) "," +:+ "}" = e +:+ members_tail es.
Proof.
  revert e. induction es as [|e' es IH]; intros e; [reflexivity|].
  rewrite Join_cons by done. rewrite !append_assoc'. rewrite IH. reflexivity.
Qed.

Lemma members_tail_length ms : (length ms < String.length (members_tail ms))%nat.
Proof.
  induction ms as [|m ms IH]; cbn [members_tail length]; [simpl; lia|].
  rewrite append_cons, append_nil_l. cbn [String.length]. rewrite length_append'. lia.
Qed.

Lemma members_tail_valid fs : forall fuel,
  (length fs < fuel)%nat ->
  json_members fuel (members_tail (map go_json.encode_field fs)) = true.
Proof.
  induction fs as [|f fs IH]; intros [|fuel] Hf; try (simpl in Hf; lia).
  - reflexivity.
  - cbn [map members_tail]. rewrite append_cons, append_nil_l. cbn [json_members].
    change (byte_val ",") with 44. cbn [Z.eqb Pos.eqb].
    rewrite encode_field_valid. apply IH. simpl in Hf. lia.
Qed.

Lemma json_object_members rest r :
  rest = String "034" r ->
  json_object (String "{" rest)
  = match json_member rest with
    | Some rest' => json_members (S (String.length rest)) rest'
    | None => false
    end.
Proof. intros ->. reflexivity. Qed.

Lemma Marshal_struct_valid fs : json_object (go_json.Marshal_struct fs) = true.
Proof.
  unfold go_json.Marshal_struct.
  destruct (map go_json.encode_field (List.filter go_json.emitted fs)) as [|e es] eqn:E.
  - reflexivity.
  - rewrite Join_members_tail.
    destruct (List.filter go_json.emitted fs) as [|f fs']; [discriminate|].
    cbn [map] in E. injection E as <- <-.
    rewrite append_cons, append_nil_l.
    assert (Hq : exists r, go_json.encode_field f
                           +:+ members_tail (map go_json.encode_field fs') = String "034" r).
    { unfold go_json.encode_field, go_json.appendString, dq. rewrite !append_assoc'.
      rewrite append_cons. eauto. }
    destruct Hq as [r Hr].
    rewrite (json_object_members _ r Hr).
    rewrite encode_field_valid. apply members_tail_valid.
    rewrite length_append'.
    pose proof (members_tail_length (map go_json.encode_field fs')) as Hl.
    rewrite length_map in Hl. lia.
Qed.

(** The checker at work: the object of one member; a quotation mark that
    is not escaped; a line feed inside a string; a text that goes on
    after the object. *)
Example json_object_examples :
  json_object ("{" +:+ dq +:+ "text" +:+ dq +:+ ":" +:+ dq +:+ "hi" +:+ dq +:+ "}") = true /\
  json_object ("{" +:+ dq +:+ "text" +:+ dq +:+ ":" +:+ dq +:+ "h" +:+ dq +:+ "i"
               +:+ dq +:+ "}") = false /\
  json_object ("{" +:+ dq +:+ "text" +:+ dq +:+ ":" +:+ dq +:+ "h" +:+ nl +:+ "i"
               +:+ dq +:+ "}") = false /\
  json_object ("{" +:+ dq +:+ "text" +:+ dq +:+ ":" +:+ dq +:+ "hi" +:+ dq +:+ "}}") = false.
Proof. repeat split; vm_compute; reflexivity. Qed.

(** X18: the body [SlackHandler.Handle] sends is always the text of a
    JSON object whose members are strings, whatever bytes the message,
    the output of the command and the values of the placeholders hold
    (quotation marks, reverse solidi, control characters, invalid
    UTF-8): the handler sends exactly one request, with that body. *)
Theorem SlackHandler_Handle_sends_json (h : SlackHandler) e o env w :
  exists body resp,
    trace (Handle h e o env w).2
    = trace w ++ [HttpPost (sl_webhookURL h) "application/json" body resp] /\
    json_object body = true.
Proof.
  cbn [Handle SlackHandler_FailureHandler]. rewrite SlackHandler_Handle_run. cbv zeta.
  cbn [snd trace set_trace]. rewrite Replace_run. cbn [fst snd trace set_tick].
  eexists _, _. split; [reflexivity|].
  match goal with |- json_object (slack_payload ?t ?c ?u) = true =>
    pose proof (Marshal_SlackMessage_payload t c u) as Hm end.
  apply (f_equal fst) in Hm. unfold Marshal_SlackMessage in Hm. cbn [fst] in Hm.
  rewrite <- Hm. apply Marshal_struct_valid.
Qed.

(** ** The helper of the tests *)

Lemma take_n_prefix p : forall s,
  take_n (String.length p) s = p <-> exists rest, s = p +:+ rest.
Proof.
  induction p as [|c p IH]; intros s.
  - split; [intros _; by exists s|intros _; by destruct s].
  - destruct s as [|c' s]; cbn [String.length take_n].
    + split; [discriminate|]. intros [rest Hr]. rewrite append_cons in Hr. discriminate.
    + split.
      * intros [= -> Hp]. apply IH in Hp as [rest ->]. by exists rest.
      * intros [rest Hr]. rewrite append_cons in Hr. injection Hr as -> Hs.
        f_equal. apply IH. by exists rest.
Qed.

(** X19: the helper [HasPrefix] of the tests never panics, the slice it
    takes being guarded by the comparison of the lengths, and it answers
    true exactly when the string starts with the prefix. *)
Theorem HasPrefix_starts_with s prefix :
  (exists b, handlers_test.HasPrefix s prefix = Some b) /\
  (handlers_test.HasPrefix s prefix = Some true <-> exists rest, s = prefix +:+ rest).
Proof.
  unfold handlers_test.HasPrefix, handlers_test.slice.
  destruct (Z.leb_spec (len prefix) (len s)) as [Hle|Hgt].
  - assert (Hb : (0 <=? len prefix) = true) by (apply Z.leb_le; unfold len; lia).
    rewrite Hb. change (0 <=? 0) with true. cbn [andb mbind option_bind]. split; [eauto|].
    unfold slice_from, slice_to. cbn [Z.to_nat drop_n]. rewrite Z.sub_0_r.
    unfold len. rewrite Nat2Z.id. rewrite <- take_n_prefix.
    split; [intros [= H]; by apply String.eqb_eq|intros H; f_equal; by apply String.eqb_eq].
  - split; [eauto|]. split; [discriminate|]. intros [rest ->].
    unfold len in Hgt. rewrite length_append' in Hgt. lia.
Qed.

(** ** The output of the command, trimmed *)

Lemma byte_at_ascii s : forall i,
  all_chars (fun c => byte_val c <? 128) s = true ->
  go_strings.byte_at s i < 128.
Proof.
  unfold go_strings.byte_at, slice_from. intros i. generalize (Z.to_nat i). clear i.
  induction s as [|c s IH]; intros n Hs.
  - destruct n; cbn; lia.
  - cbn [all_chars] in Hs. apply andb_true_iff in Hs as [Hc Hs].
    destruct n as [|n]; cbn [drop_n]; [by apply Z.ltb_lt in Hc|by apply IH].
Qed.

Lemma trim_start_ascii s :
  all_chars (fun c => byte_val c <? 128) s = true ->
  forall fuel start,
    0 <= start <= len s -> len s - start <= Z.of_nat fuel ->
    exists a,
      go_strings.trim_start fuel s start = inl a /\ start <= a <= len s /\
      (forall i, start <= i < a -> go_strings.asciiSpace (go_strings.byte_at s i) = true) /\
      (a < len s -> go_strings.asciiSpace (go_strings.byte_at s a) = false).
Proof.
  intros Hs. induction fuel as [|fuel IH]; intros start Hstart Hfuel.
  - exists start. cbn. repeat split; try lia.
  - cbn [go_strings.trim_start].
    destruct (Z.leb_spec (len s) start) as [Hend|Hin].
    { exists start. repeat split; try lia. }
    pose proof (byte_at_ascii s start Hs) as Hb. cbv zeta.
    destruct (Z.leb_spec go_utf8.RuneSelf (go_strings.byte_at s start)) as [Hhi|_];
      [unfold go_utf8.RuneSelf in Hhi; lia|].
    destruct (go_strings.asciiSpace (go_strings.byte_at s start)) eqn:Hsp; cbn [negb].
    + destruct (IH (start + 1)) as (a & Ha & Hr & Hpre & Hstop); [lia|lia|].
      exists a. repeat split; try done; try lia.
      intros i Hi. destruct (Z.eq_dec i start) as [->|]; [done|apply Hpre; lia].
    + exists start. repeat split; try lia. done.
Qed.

Lemma trim_stop_ascii s start :
  all_chars (fun c => byte_val c <? 128) s = true ->
  forall fuel stop,
    start <= stop -> stop - start <= Z.of_nat fuel ->
    exists b,
      go_strings.trim_stop fuel s start stop = inl b /\ start <= b <= stop /\
      (forall i, b <= i < stop -> go_strings.asciiSpace (go_strings.byte_at s i) = true) /\
      (start < b -> go_strings.asciiSpace (go_strings.byte_at s (b - 1)) = false).
Proof.
  intros Hs. induction fuel as [|fuel IH]; intros stop Hstop Hfuel.
  - exists stop. cbn. repeat split; try lia.
  - cbn [go_strings.trim_stop].
    destruct (Z.leb_spec stop start) as [Hend|Hin].
    { exists stop. repeat split; try lia. }
    pose proof (byte_at_ascii s (stop - 1) Hs) as Hb. cbv zeta.
    destruct (Z.leb_spec go_utf8.RuneSelf (go_strings.byte_at s (stop - 1))) as [Hhi|_];
      [unfold go_utf8.RuneSelf in Hhi; lia|].
    destruct (go_strings.asciiSpace (go_strings.byte_at s (stop - 1))) eqn:Hsp; cbn [negb].
    + destruct (IH (stop - 1)) as (b & Hb' & Hr & Hpost & Hlast); [lia|lia|].
      exists b. repeat split; try done; try lia.
      intros i Hi. destruct (Z.eq_dec i (stop - 1)) as [->|]; [done|apply Hpost; lia].
    + exists stop. repeat split; try lia. done.
Qed.

(** X20: when the command printed ASCII bytes only, the output
    [RunCommand] returns is the part [a..b) of the stdout buffer
    followed by the stderr buffer, where everything before [a] and from
    [b] on is ASCII white space (tab, line feed, vertical tab, form feed,
    carriage return, space), and the output, unless empty, begins and
    ends with a byte that is not. *)
Theorem RunCommand_output_ascii fh ctx command args env w :
  let res := cmd_Run env (S (tick w)) ctx command args in
  let combined := proc_stdout res +:+ proc_stderr res in
  all_chars (fun c => byte_val c <? 128) combined = true ->
  exists a b,
    0 <= a <= b /\ b <= len combined /\
    (RunCommand fh ctx command args env w).1.1.2 = slice_to (slice_from combined a) (b - a) /\
    (forall i, 0 <= i < a -> go_strings.asciiSpace (go_strings.byte_at combined i) = true) /\
    (forall i, b <= i < len combined ->
       go_strings.asciiSpace (go_strings.byte_at combined i) = true) /\
    (a < b -> go_strings.asciiSpace (go_strings.byte_at combined a) = false /\
              go_strings.asciiSpace (go_strings.byte_at combined (b - 1)) = false).
Proof.
  cbv zeta. intros Hs. rewrite RunCommand_run. cbn [fst snd].
  set (s := proc_stdout _ +:+ proc_stderr _) in *.
  unfold go_strings.TrimSpace.
  destruct (trim_start_ascii s Hs (String.length s) 0) as (a & Ha & Hra & Hpre & Hfirst);
    [unfold len; lia|unfold len; lia|].
  rewrite Ha.
  destruct (trim_stop_ascii s a Hs (String.length s) (len s)) as (b & Hb & Hrb & Hpost & Hlast);
    [lia|unfold len in *; lia|].
  rewrite Hb. exists a, b. repeat split; try done; try lia.
  - apply Hfirst. lia.
  - by apply Hlast.
Qed.

Lemma RunCommand_output_ascii_witness :
  exists a b,
    0 <= a <= b /\ b <= len (proc_stdout noisy_failure +:+ proc_stderr noisy_failure) /\
    (RunCommand (NewFailHook false) (make_context 0) "make" [] (with_run noisy_failure calm)
       World0).1.1.2
    = slice_to (slice_from (proc_stdout noisy_failure +:+ proc_stderr noisy_failure) a) (b - a).
Proof.
  destruct (RunCommand_output_ascii (NewFailHook false) (make_context 0) "make" []
              (with_run noisy_failure calm) World0 eq_refl)
    as (a & b & Hab & Hb & Hout & _).
  exists a, b. repeat split; try apply Hab; [exact Hb|exact Hout].
Defined.

(** ** The options of the Slack handler *)

Lemma options_fold os : forall h,
  fold_left (fun h option => option h) (map option_func os) h
  = {| sl_webhookURL := sl_webhookURL h; sl_message := sl_message h;
       sl_channel := last_channel os (sl_channel h);
       sl_username := last_username os (sl_username h);
       sl_registry := sl_registry h |}.
Proof.
  induction os as [|[c|u] os IH]; intros h; cbn [map fold_left option_func].
  - by destruct h.
  - rewrite IH. reflexivity.
  - rewrite IH. reflexivity.
Qed.

(** X21: [NewSlackHandler] with options made by [WithChannel] and
    [WithUsername]: the handler has the given URL and message and a new
    registry with the built-in placeholders; the channel is the one of
    the last [WithChannel], none without one; the user name is the one
    of the last [WithUsername], [FailHook] without one. The request it
    sends on a failure carries that channel and user name, each left
    out of the JSON object when empty. *)
Theorem NewSlackHandler_options url msg os env w :
  let h := (NewSlackHandler url msg (map option_func os) env w).1 in
  let w1 := (NewSlackHandler url msg (map option_func os) env w).2 in
  h = {| sl_webhookURL := url; sl_message := msg;
         sl_channel := last_channel os "";
         sl_username := last_username os "FailHook";
         sl_registry := next w |} /\
  heap w1 !!! next w = {| placeholders := builtin_placeholders |} /\
  forall e o env' w', exists resp,
    trace (Handle h e o env' w').2
    = trace w' ++ [HttpPost url "application/json"
                     (slack_payload (Replace (next w) msg e o env' w').1
                        (last_channel os "") (last_username os "FailHook")) resp].
Proof.
  cbv zeta. unfold NewSlackHandler. rewrite bind_run, NewPlaceholderRegistry_run.
  cbn [fst snd mret IO_ret]. rewrite options_fold. cbn [sl_webhookURL sl_message sl_channel
    sl_username sl_registry].
  split; [reflexivity|]. split.
  - cbn [heap set_heap set_next]. apply lookup_total_insert_eq.
  - intros e o env' w'. cbn [Handle SlackHandler_FailureHandler].
    rewrite SlackHandler_Handle_run. cbv zeta.
    cbn [snd trace set_trace sl_webhookURL sl_message sl_channel sl_username sl_registry].
    rewrite Replace_run. cbn [fst snd trace set_tick]. eexists. reflexivity.
Qed.

(** ** More on the entry of [main] *)



(** X23: when the very first argument is [--] and more arguments
    follow, the slice [os.Args[1:sepIndex]] is out of bounds: [main]
    panics before it parses a flag, and the process ends with status 2
    without having printed or started anything. *)
Theorem main_separator_first cmd rest env w :
  main ("--" :: cmd :: rest) env w = (Panic, w) /\
  exit_status (main ("--" :: cmd :: rest) env w).1 = 2.
Proof.
  unfold main. cbn [find_separator String.eqb Ascii.eqb Bool.eqb].
  unfold len_list. cbn [length].
  destruct (Z.eqb_spec 0 (Z.of_nat (S (S (length rest))) - 1)); [lia|].
  cbn. done.
Qed.
